(** * ed-message: the header codec, embedded and verified

    The development follows the three source files of the repository:
    [utils/stringByteLength.js], [utils/validateEnumValue.js] and
    [header.js].  JavaScript values, IEEE-754 numbers, UTF-8/UTF-16 text and
    the Node.js [Buffer] operations that the code calls are modelled first;
    the code of the repository comes next; lemmas and theorems come last. *)

From Stdlib Require Import ZArith List Bool Lia String.
From Stdlib Require Import Floats.SpecFloat.
Import ListNotations.

Local Open Scope Z_scope.

(* ================================================================== *)
(** * Part I: the host language *)
(* ================================================================== *)

(** ** Completions: a call either returns or throws *)

(** The statements of [header.js] that throw, one constructor per
    [throw new Error (...)] in source order. *)
Inductive throw_site :=
| ArgumentCount        (* header.js line 68 *)
| EventTypeArgument    (* line 74 *)
| GranularityArgument  (* line 90 *)
| EventSourceArgument  (* line 98 *)
| PayloadLengthArgument(* line 179 *)
| ComposedArgument     (* line 231 *)
| OccurrenceTimeArgument (* line 274 *)
| DetectionTimeArgument  (* line 303 *)
| EventIdArgument.       (* line 330 *)

(** What a call can throw: the module's own [Error], or an exception of the
    host ([TypeError] for a property read on [undefined]/[null], [RangeError]
    for a [Buffer] operation out of range). *)
Inductive exception :=
| Error (site : throw_site)
| TypeError
| RangeError.

Inductive completion (A : Type) :=
| Return (a : A)
| Throw (e : exception).
Arguments Return {A} a.
Arguments Throw {A} e.

Definition bind {A B} (c : completion A) (k : A -> completion B) : completion B :=
  match c with
  | Return a => k a
  | Throw e => Throw e
  end.

Notation "x <- c ;; k" := (bind c (fun x => k))
  (at level 61, c at next level, right associativity).
Notation "c ;;; k" := (bind c (fun _ => k))
  (at level 61, right associativity).

Definition throws {A} (c : completion A) : Prop := exists e, c = Throw e.

(** ** Numbers: IEEE-754 binary64 *)

Module Number.

Definition prec : Z := 53.
Definition emax : Z := 1024.

(** A JavaScript number is a binary64 value; [spec_float] has one NaN. *)
Definition number := spec_float.

Definition is_double (x : number) : Prop := valid_binary prec emax x = true.

Definition NaN : number := S754_nan.
Definition pos_zero : number := S754_zero false.
Definition Infinity : number := S754_infinity false.

(** The number denoted by an integer (rounded to nearest even). *)
Definition of_Z (z : Z) : number := binary_normalize prec emax z 0 false.

(** The number denoted by a decimal [m * 10^e], correctly rounded. *)
Definition of_decimal (neg : bool) (m e : Z) : number :=
  match m with
  | Z.pos p =>
      if 0 <=? e then binary_round prec emax neg (Z.to_pos (m * 10 ^ e)) 0
      else
        let '(q, e', l) := SFdiv_core_binary prec emax m 0 (10 ^ (- e)) 0 in
        binary_round_aux prec emax neg q e' l
  | _ => S754_zero neg
  end.

Definition sub : number -> number -> number := SFsub prec emax.

(** [a > b] and [a < b]; both are false when an operand is NaN. *)
Definition gt (a b : number) : bool :=
  match SFcompare a b with Some Gt => true | _ => false end.
Definition lt (a b : number) : bool :=
  match SFcompare a b with Some Lt => true | _ => false end.

(** [a === b] on numbers: NaN differs from itself, [+0 === -0]. *)
Definition eqb (a b : number) : bool :=
  match SFcompare a b with Some Eq => true | _ => false end.

(** The integer part, toward zero; 0 for NaN and the infinities. *)
Definition truncate (x : number) : Z :=
  match x with
  | S754_finite s m e =>
      let a := Z.shiftl (Z.pos m) e in
      if s then - a else a
  | _ => 0
  end.

Definition ToUint32 (x : number) : Z := truncate x mod 2 ^ 32.
Definition ToUint8 (x : number) : Z := truncate x mod 2 ^ 8.

(** Two's complement reading of the low 32 bits. *)
Definition int32 (z : Z) : Z :=
  let u := z mod 2 ^ 32 in if u <? 2 ^ 31 then u else u - 2 ^ 32.

Definition ToInt32 (x : number) : Z := int32 (truncate x).

End Number.

Import Number.

(** ** Strings and values *)

(** A string is its sequence of UTF-16 code units, each in [0, 0xFFFF]. *)
Definition jsstring := list Z.

Definition code_unit (c : Z) : Prop := 0 <= c <= 65535.

Fixpoint lit (s : string) : jsstring :=
  match s with
  | EmptyString => []
  | String a r => Z.of_nat (Ascii.nat_of_ascii a) :: lit r
  end.

Fixpoint jsstring_eqb (a b : jsstring) : bool :=
  match a, b with
  | [], [] => true
  | x :: a', y :: b' => (x =? y) && jsstring_eqb a' b'
  | _, _ => false
  end.

(** The primitive values a caller can pass.  Objects appear only as members
    of the granularity module (see [enum_value]). *)
Inductive value :=
| VUndefined
| VNull
| VBoolean (b : bool)
| VNumber (x : number)
| VString (s : jsstring).

Inductive type_name := TyUndefined | TyObject | TyBoolean | TyNumber | TyString.

Definition typeof (v : value) : type_name :=
  match v with
  | VUndefined => TyUndefined
  | VNull => TyObject
  | VBoolean _ => TyBoolean
  | VNumber _ => TyNumber
  | VString _ => TyString
  end.

Definition type_name_eqb (a b : type_name) : bool :=
  match a, b with
  | TyUndefined, TyUndefined | TyObject, TyObject | TyBoolean, TyBoolean
  | TyNumber, TyNumber | TyString, TyString => true
  | _, _ => false
  end.

(** [a === b] *)
Definition strict_equal (a b : value) : bool :=
  match a, b with
  | VUndefined, VUndefined => true
  | VNull, VNull => true
  | VBoolean x, VBoolean y => Bool.eqb x y
  | VNumber x, VNumber y => Number.eqb x y
  | VString x, VString y => jsstring_eqb x y
  | _, _ => false
  end.

(** *** StringToNumber (ECMAScript 7.1.4.1.1) *)

Module StringNumericLiteral.

Definition StrWhiteSpaceChar (c : Z) : bool :=
  existsb (Z.eqb c)
    [9; 10; 11; 12; 13; 32; 160; 5760; 8232; 8233; 8239; 8287; 12288; 65279]
  || ((8192 <=? c) && (c <=? 8202)).

Fixpoint trim_start (s : jsstring) : jsstring :=
  match s with
  | c :: r => if StrWhiteSpaceChar c then trim_start r else s
  | [] => []
  end.

Definition trim (s : jsstring) : jsstring :=
  rev (trim_start (rev (trim_start s))).

Definition digit (radix c : Z) : option Z :=
  let d :=
    if (48 <=? c) && (c <=? 57) then c - 48
    else if (97 <=? c) && (c <=? 122) then c - 87
    else if (65 <=? c) && (c <=? 90) then c - 55
    else radix in
  if d <? radix then Some d else None.

(** Reads the longest prefix of digits: the accumulated value, the number
    of digits read and the rest of the string. *)
Fixpoint digits (radix : Z) (s : jsstring) (acc n : Z) : Z * Z * jsstring :=
  match s with
  | c :: r =>
      match digit radix c with
      | Some d => digits radix r (acc * radix + d) (n + 1)
      | None => (acc, n, s)
      end
  | [] => (acc, n, [])
  end.

Definition sign (s : jsstring) : bool * jsstring :=
  match s with
  | 43 :: r => (false, r)
  | 45 :: r => (true, r)
  | _ => (false, s)
  end.

Definition ExponentPart (s : jsstring) : option Z :=
  match s with
  | [] => Some 0
  | c :: r =>
      if (c =? 101) || (c =? 69) then
        let '(neg, r) := sign r in
        let '(v, n, rest) := digits 10 r 0 0 in
        match rest with
        | [] => if n =? 0 then None else Some (if neg then - v else v)
        | _ => None
        end
      else None
  end.

Definition StrUnsignedDecimalLiteral (neg : bool) (s : jsstring) : number :=
  if jsstring_eqb s (lit "Infinity") then S754_infinity neg
  else
    let '(ip, n1, r1) := digits 10 s 0 0 in
    let '(m, n2, r2) :=
      match r1 with
      | 46 :: r => digits 10 r ip 0
      | _ => (ip, 0, r1)
      end in
    if n1 + n2 =? 0 then NaN
    else match ExponentPart r2 with
         | Some e => of_decimal neg m (e - n2)
         | None => NaN
         end.

Definition NonDecimalIntegerLiteral (radix : Z) (s : jsstring) : number :=
  let '(v, n, rest) := digits radix s 0 0 in
  match rest with
  | [] => if n =? 0 then NaN else of_Z v
  | _ => NaN
  end.

Definition StringToNumber (s : jsstring) : number :=
  match trim s with
  | [] => pos_zero
  | 48 :: x :: r =>
      if (x =? 120) || (x =? 88) then NonDecimalIntegerLiteral 16 r
      else if (x =? 111) || (x =? 79) then NonDecimalIntegerLiteral 8 r
      else if (x =? 98) || (x =? 66) then NonDecimalIntegerLiteral 2 r
      else StrUnsignedDecimalLiteral false (48 :: x :: r)
  | t => let '(neg, r) := sign t in StrUnsignedDecimalLiteral neg r
  end.

End StringNumericLiteral.

Definition ToNumber (v : value) : number :=
  match v with
  | VUndefined => NaN
  | VNull => pos_zero
  | VBoolean b => if b then of_Z 1 else pos_zero
  | VNumber x => x
  | VString s => StringNumericLiteral.StringToNumber s
  end.

(** [Boolean (n)] for an integer [n] *)
Definition Boolean (n : Z) : bool := negb (n =? 0).

(** ** UTF-16 text and its UTF-8 encoding *)

Module Utf8.

Definition is_lead (c : Z) : bool := (0xD800 <=? c) && (c <=? 0xDBFF).
Definition is_trail (c : Z) : bool := (0xDC00 <=? c) && (c <=? 0xDFFF).
Definition is_surrogate (c : Z) : bool := (0xD800 <=? c) && (c <=? 0xDFFF).

Definition REPLACEMENT : Z := 0xFFFD.

Definition pair_code_point (hi lo : Z) : Z :=
  0x10000 + (hi - 0xD800) * 1024 + (lo - 0xDC00).

(** The code points of a string; a surrogate that is not part of a
    lead/trail pair is read as U+FFFD, as the encoder of the host does. *)
Fixpoint code_points (s : jsstring) : list Z :=
  match s with
  | [] => []
  | c :: r =>
      if is_lead c then
        match r with
        | d :: r' =>
            if is_trail d then pair_code_point c d :: code_points r'
            else REPLACEMENT :: code_points r
        | [] => [REPLACEMENT]
        end
      else if is_trail c then REPLACEMENT :: code_points r
      else c :: code_points r
  end.

Definition encode_code_point (cp : Z) : list Z :=
  if cp <? 0x80 then [cp]
  else if cp <? 0x800 then [0xC0 + cp / 64; 0x80 + cp mod 64]
  else if cp <? 0x10000 then
    [0xE0 + cp / 4096; 0x80 + (cp / 64) mod 64; 0x80 + cp mod 64]
  else
    [0xF0 + cp / 262144; 0x80 + (cp / 4096) mod 64;
     0x80 + (cp / 64) mod 64; 0x80 + cp mod 64].

Definition encode (s : jsstring) : list Z :=
  flat_map encode_code_point (code_points s).

(** Every surrogate of the string belongs to a lead/trail pair. *)
Fixpoint well_formed (s : jsstring) : bool :=
  match s with
  | [] => true
  | c :: r =>
      if is_lead c then
        match r with
        | d :: r' => is_trail d && well_formed r'
        | [] => false
        end
      else negb (is_trail c) && ((0 <=? c) && (c <=? 0xFFFF)) && well_formed r
  end.

(** The same strings, built from the right: the order in which
    [stringByteLength] reads them. *)
Inductive paired : jsstring -> Prop :=
| paired_nil : paired []
| paired_unit s c :
    paired s -> is_surrogate c = false -> 0 <= c <= 0xFFFF ->
    paired (s ++ [c])
| paired_pair s hi lo :
    paired s -> is_lead hi = true -> is_trail lo = true ->
    paired (s ++ [hi; lo]).

(** A Unicode scalar value: a code point that is not a surrogate. *)
Definition scalar (cp : Z) : Prop :=
  0 <= cp < 0xD800 \/ 0xE000 <= cp <= 0x10FFFF.

(** The decoder of the Encoding Standard: a state machine over the bytes
    that emits U+FFFD for every ill-formed subsequence. *)
Record decoder := {
  code_point : Z;
  bytes_needed : Z;
  bytes_seen : Z;
  lower_boundary : Z;
  upper_boundary : Z
}.

Definition idle : decoder := Build_decoder 0 0 0 0x80 0xBF.

Definition first_byte (b : Z) : decoder * list Z :=
  if b <=? 0x7F then (idle, [b])
  else if (0xC2 <=? b) && (b <=? 0xDF) then
    (Build_decoder (b - 0xC0) 1 0 0x80 0xBF, [])
  else if (0xE0 <=? b) && (b <=? 0xEF) then
    (Build_decoder (b - 0xE0) 2 0
       (if b =? 0xE0 then 0xA0 else 0x80) (if b =? 0xED then 0x9F else 0xBF), [])
  else if (0xF0 <=? b) && (b <=? 0xF4) then
    (Build_decoder (b - 0xF0) 3 0
       (if b =? 0xF0 then 0x90 else 0x80) (if b =? 0xF4 then 0x8F else 0xBF), [])
  else (idle, [REPLACEMENT]).

Definition next_byte (st : decoder) (b : Z) : decoder * list Z :=
  if bytes_needed st =? 0 then first_byte b
  else if (b <? lower_boundary st) || (upper_boundary st <? b) then
    let '(st', out) := first_byte b in (st', REPLACEMENT :: out)
  else
    let cp := code_point st * 64 + (b - 0x80) in
    if bytes_seen st + 1 =? bytes_needed st then (idle, [cp])
    else (Build_decoder cp (bytes_needed st) (bytes_seen st + 1) 0x80 0xBF, []).

Fixpoint decode_from (st : decoder) (bytes : list Z) : list Z :=
  match bytes with
  | [] => if bytes_needed st =? 0 then [] else [REPLACEMENT]
  | b :: r => let '(st', out) := next_byte st b in out ++ decode_from st' r
  end.

Definition code_units (cp : Z) : jsstring :=
  if cp <? 0x10000 then [cp]
  else [0xD800 + (cp - 0x10000) / 1024; 0xDC00 + (cp - 0x10000) mod 1024].

Definition decode (bytes : list Z) : jsstring :=
  flat_map code_units (decode_from idle bytes).

End Utf8.

(** ** Node.js [Buffer]

    A buffer is its sequence of bytes.  The operations follow the current
    Node.js implementation: [new Buffer (size)] is zero-filled, the integer
    writers throw a [RangeError] for a value outside the field's range and
    store the integer part of any other number, every reader and writer
    throws a [RangeError] when the field does not fit in the buffer, and an
    indexed store outside the buffer is ignored. *)

Module Buffer.

Definition t := list Z.

Definition length (b : t) : Z := Z.of_nat (List.length b).

Definition kMaxLength : Z := 2 ^ 53 - 1.

(** [new Buffer (size)]: [size] is [None] when the argument is NaN. *)
Definition new (size : option Z) : completion t :=
  match size with
  | Some n =>
      if (n <? 0) || (kMaxLength <? n) then Throw RangeError
      else Return (repeat 0 (Z.to_nat n))
  | None => Throw RangeError
  end.

(** [b[i]], [None] standing for [undefined]. *)
Definition get (b : t) (i : Z) : option Z :=
  if i <? 0 then None else nth_error b (Z.to_nat i).

(** [b[i]] where an integer is expected: [undefined] converts to 0. *)
Definition get_int (b : t) (i : Z) : Z :=
  match get b i with Some x => x | None => 0 end.

(** Overwrites [b] from index [offset] with [bytes]; what does not fit is
    dropped, the length never changes. *)
Fixpoint blit (b : t) (offset : nat) (bytes : list Z) : t :=
  match b with
  | [] => []
  | x :: b' =>
      match offset with
      | S offset' => x :: blit b' offset' bytes
      | O =>
          match bytes with
          | [] => b
          | y :: bytes' => y :: blit b' O bytes'
          end
      end
  end.

(** [b[i] = v] *)
Definition set (b : t) (i : Z) (v : Z) : t :=
  if i <? 0 then b else blit b (Z.to_nat i) [v mod 256].

Definition slice (b : t) (start stop : Z) : list Z :=
  let start := Z.max 0 start in
  firstn (Z.to_nat (stop - start)) (skipn (Z.to_nat start) b).

Fixpoint be_bytes (n : nat) (z : Z) : list Z :=
  match n with
  | O => []
  | S n' => (z / 256 ^ Z.of_nat n') mod 256 :: be_bytes n' z
  end.

Fixpoint be_value (bytes : list Z) : Z :=
  match bytes with
  | [] => 0
  | x :: r => x * 256 ^ Z.of_nat (List.length r) + be_value r
  end.

Definition in_bounds (b : t) (offset width : Z) : bool :=
  (0 <=? offset) && (offset + width <=? length b).

Definition readUIntBE (width : nat) (b : t) (offset : Z) : completion Z :=
  if in_bounds b offset (Z.of_nat width)
  then Return (be_value (slice b offset (offset + Z.of_nat width)))
  else Throw RangeError.

Definition readUInt16BE := readUIntBE 2.
Definition readUInt32BE := readUIntBE 4.

Definition writeUIntBE (width : nat) (b : t) (v : number) (offset : Z)
  : completion t :=
  if gt v (of_Z (256 ^ Z.of_nat width - 1)) || lt v (of_Z 0) then Throw RangeError
  else if in_bounds b offset (Z.of_nat width)
  then Return (blit b (Z.to_nat offset) (be_bytes width (ToUint32 v)))
  else Throw RangeError.

Definition writeUInt16BE := writeUIntBE 2.
Definition writeUInt32BE := writeUIntBE 4.

(** The 64 bits of a double: sign, 11 bits of exponent, 52 of fraction. *)
Definition sign_bit (s : bool) : Z := if s then 2 ^ 63 else 0.

Definition bits_of_double (x : number) : Z :=
  match x with
  | S754_zero s => sign_bit s
  | S754_infinity s => sign_bit s + 2047 * 2 ^ 52
  | S754_nan => 2047 * 2 ^ 52 + 2 ^ 51
  | S754_finite s m e =>
      sign_bit s +
      (if Z.pos m <? 2 ^ 52 then Z.pos m
       else (e + 1075) * 2 ^ 52 + (Z.pos m - 2 ^ 52))
  end.

Definition double_of_bits (bits : Z) : number :=
  let s := 2 ^ 63 <=? bits in
  let e := (bits / 2 ^ 52) mod 2048 in
  let f := bits mod 2 ^ 52 in
  if e =? 0 then
    match f with Z.pos m => S754_finite s m (-1074) | _ => S754_zero s end
  else if e =? 2047 then
    if f =? 0 then S754_infinity s else S754_nan
  else
    match f + 2 ^ 52 with
    | Z.pos m => S754_finite s m (e - 1075)
    | _ => S754_nan
    end.

Definition readDoubleBE (b : t) (offset : Z) : completion number :=
  if in_bounds b offset 8
  then Return (double_of_bits (be_value (slice b offset (offset + 8))))
  else Throw RangeError.

Definition writeDoubleBE (b : t) (v : number) (offset : Z) : completion t :=
  if in_bounds b offset 8
  then Return (blit b (Z.to_nat offset) (be_bytes 8 (bits_of_double v)))
  else Throw RangeError.

(** The encoded characters that fit in [room] bytes: a character is
    written whole or not at all. *)
Fixpoint fit (chars : list (list Z)) (room : nat) : list Z :=
  match chars with
  | [] => []
  | ch :: r =>
      if (List.length ch <=? room)%nat
      then ch ++ fit r (room - List.length ch)
      else []
  end.

(** [b.write (string, offset)], UTF-8; a [TypeError] when [string] is
    not a string. *)
Definition write (b : t) (string : value) (offset : Z) : completion t :=
  match string with
  | VString s =>
      if (0 <=? offset) && (offset <=? length b) then
        Return (blit b (Z.to_nat offset)
                  (fit (map Utf8.encode_code_point (Utf8.code_points s))
                       (List.length b - Z.to_nat offset)))
      else Throw RangeError
  | _ => Throw TypeError
  end.

(** [b.toString ('utf8', start, end)] *)
Definition toString (b : t) (start stop : Z) : jsstring :=
  Utf8.decode (slice b start (Z.min stop (length b))).

End Buffer.

(* ================================================================== *)
(** * Part II: the code of the repository *)
(* ================================================================== *)

(** ** utils/stringByteLength.js *)

Definition charCodeAt (str : jsstring) (i : Z) : Z := nth (Z.to_nat i) str 0.

(** The [for] loop of [stringByteLength]: [i] runs down from
    [str.length - 1], [s] is the running count.  Each iteration lowers [i]
    by at least one, so [fuel = str.length] iterations are enough (lemma
    [stringByteLength_loop_fuel]). *)
Fixpoint stringByteLength_loop (fuel : nat) (str : jsstring) (i s : Z) : Z :=
  match fuel with
  | O => s
  | S fuel' =>
      if 0 <=? i then
        let code := charCodeAt str i in
        let s :=
          if (0x7f <? code) && (code <=? 0x7ff) then s + 1
          else if (0x7ff <? code) && (code <=? 0xffff) then s + 2
          else s in
        let i := if (0xDC00 <=? code) && (code <=? 0xDFFF) then i - 1 else i in
        stringByteLength_loop fuel' str (i - 1) s
      else s
  end.

Definition stringByteLength_string (str : jsstring) : Z :=
  let s := Z.of_nat (List.length str) in
  stringByteLength_loop (List.length str) str (s - 1) s.

(** [stringByteLength (str)] for any primitive argument.  [str.length]
    throws on [undefined] and [null]; on a boolean or a number it is
    [undefined], the loop does not run and [undefined] ([None]) is returned. *)
Definition stringByteLength (str : value) : completion (option Z) :=
  match str with
  | VUndefined | VNull => Throw TypeError
  | VBoolean _ | VNumber _ => Return None
  | VString s => Return (Some (stringByteLength_string s))
  end.

(** ** utils/validateEnumValue.js *)

(** The value of a property of the object that is checked: a primitive, or
    an object (which no primitive is [===] to). *)
Inductive enum_value :=
| Primitive (v : value)
| Object.

Definition enumeration := list (string * enum_value).

Definition validateEnumValue (value : value) (enumToCheck : enumeration) : bool :=
  fold_left
    (fun isValid '(_, member) =>
       match member with
       | Primitive v => if strict_equal value v then true else isValid
       | Object => isValid
       end)
    enumToCheck false.

(** ** header.js *)

(** The module [ed-temporal-granularity] is not part of the repository.  The
    header uses its enumerable properties (through [validateEnumValue]) and
    [granularity.properties[code].name]. *)
Record granularity_property := { name : value }.

Record granularity_module := {
  members : enumeration;
  properties : Z -> option granularity_property
}.

Record HeaderObject := {
  FIXED_HEADER_SIZE : Z;
  buffer : Buffer.t
}.

Definition PROTOCOL_VERSION : Z := 1.
Definition _FIXED_HEADER_SIZE : Z := 47.

Definition argument (arguments : list value) (n : nat) : value :=
  nth n arguments VUndefined.

(** [v.length === 0] for a primitive [v] *)
Definition length_is_zero (v : value) : completion bool :=
  match v with
  | VUndefined | VNull => Throw TypeError
  | VString s => Return (Z.of_nat (List.length s) =? 0)
  | _ => Return false
  end.

Definition is_type (v : value) (ty : type_name) : bool :=
  type_name_eqb (typeof v) ty.

(** [n !== k] for the result [n] of [stringByteLength] *)
Definition differs (n : option Z) (k : Z) : bool :=
  match n with
  | Some z => negb (z =? k)
  | None => true
  end.

(** [b[0] ^= 8] when [!Boolean (b[0] & 8) == flag] *)
Definition flip_composed (b : Buffer.t) (flag : bool) : Buffer.t :=
  if Bool.eqb (negb (Boolean (Z.land (Buffer.get_int b 0) 8))) flag
  then Buffer.set b 0 (Z.lxor (Buffer.get_int b 0) 8)
  else b.

Section Header.

Variable granularity : granularity_module.

(** The body of [Header] once [this instanceof Header] holds. *)
Definition Header_new (arguments : list value) : completion HeaderObject :=
  let eventType := argument arguments 0 in
  let temporalGranularity := argument arguments 1 in
  let eventSource := argument arguments 2 in
  let isComposed := argument arguments 3 in
  let argc := Z.of_nat (List.length arguments) in
  if (argc <? 3) || (4 <? argc) then Throw (Error ArgumentCount) else
  (* typeof eventType != 'string' && (eventType.length === 0) *)
  empty <- (if negb (is_type eventType TyString)
            then length_is_zero eventType else Return false) ;;
  if empty || gt (ToNumber eventType) (of_Z (65535 - _FIXED_HEADER_SIZE))
  then Throw (Error EventTypeArgument) else
  n <- stringByteLength eventType ;;
  _buffer <- Buffer.new (option_map (Z.add _FIXED_HEADER_SIZE) n) ;;
  let _buffer := Buffer.set _buffer 0 PROTOCOL_VERSION in
  _buffer <- Buffer.writeUInt16BE _buffer (of_Z (Buffer.length _buffer)) 1 ;;
  _buffer <- Buffer.write _buffer eventType _FIXED_HEADER_SIZE ;;
  if negb (validateEnumValue temporalGranularity (members granularity))
  then Throw (Error GranularityArgument) else
  let _buffer :=
    Buffer.set _buffer 0
      (Z.lor (Buffer.get_int _buffer 0)
             (int32 (Z.shiftl (ToInt32 (ToNumber temporalGranularity)) 4))) in
  (* typeof eventSource !== 'string' || stringByteLength (eventSource) !== 12 *)
  bad <- (if negb (is_type eventSource TyString) then Return true
          else n <- stringByteLength eventSource ;; Return (differs n 12)) ;;
  if bad then
    (* the message of the error calls stringByteLength (eventSource) *)
    stringByteLength eventSource ;;; Throw (Error EventSourceArgument)
  else
  _buffer <- Buffer.write _buffer eventSource 35 ;;
  let _buffer :=
    match isComposed with
    | VBoolean flag => if argc =? 4 then flip_composed _buffer flag else _buffer
    | _ => _buffer
    end in
  Return {| FIXED_HEADER_SIZE := _FIXED_HEADER_SIZE; buffer := _buffer |}.

(** [Header (...)], called with [new] ([this instanceof Header]) or as a
    plain function, which calls [new Header] with its four parameters. *)
Definition Header (this_instanceof_Header : bool) (arguments : list value)
  : completion HeaderObject :=
  if negb this_instanceof_Header then
    Header_new [argument arguments 0; argument arguments 1;
                argument arguments 2; argument arguments 3]
  else Header_new arguments.

Definition getProtocolVersion (this : HeaderObject) : Z :=
  Z.land (Buffer.get_int (buffer this) 0) 7.

Definition getHeaderLength (this : HeaderObject) : completion Z :=
  Buffer.readUInt16BE (buffer this) 1.

Definition getPayloadLength (this : HeaderObject) : completion Z :=
  Buffer.readUInt32BE (buffer this) 3.

Definition setPayloadLength (this : HeaderObject) (payloadLength : value)
  : completion HeaderObject :=
  match payloadLength with
  | VNumber n =>
      if gt n (of_Z 4294967295) then Throw (Error PayloadLengthArgument) else
      b <- Buffer.writeUInt32BE (buffer this) n 3 ;;
      Return {| FIXED_HEADER_SIZE := FIXED_HEADER_SIZE this; buffer := b |}
  | _ => Throw (Error PayloadLengthArgument)
  end.

Definition getTemporalGranularity (this : HeaderObject) : Z :=
  Z.shiftr (Buffer.get_int (buffer this) 0) 4.

Definition getTemporalGranularityName (this : HeaderObject) : completion value :=
  match properties granularity (Z.shiftr (Buffer.get_int (buffer this) 0) 4) with
  | Some p => Return (name p)
  | None => Throw TypeError
  end.

Definition isComposed (this : HeaderObject) : bool :=
  Boolean (Z.land (Buffer.get_int (buffer this) 0) 8).

Definition setComposed (this : HeaderObject) (composed : value)
  : completion HeaderObject :=
  match composed with
  | VBoolean flag =>
      Return {| FIXED_HEADER_SIZE := FIXED_HEADER_SIZE this;
                buffer := flip_composed (buffer this) flag |}
  | _ => Throw (Error ComposedArgument)
  end.

Definition getEventType (this : HeaderObject) : completion jsstring :=
  stop <- getHeaderLength this ;;
  Return (Buffer.toString (buffer this) (FIXED_HEADER_SIZE this) stop).

(** [2E+63 - 1] *)
Definition MAX_TIME : number := Number.sub (of_decimal false 2 63) (of_Z 1).

Definition getOccurrenceTime (this : HeaderObject) : completion number :=
  Buffer.readDoubleBE (buffer this) 7.

Definition setOccurrenceTime (this : HeaderObject) (occurrenceTime : value)
  : completion HeaderObject :=
  match occurrenceTime with
  | VNumber t =>
      if gt t MAX_TIME then Throw (Error OccurrenceTimeArgument) else
      b <- Buffer.writeDoubleBE (buffer this) t 7 ;;
      Return {| FIXED_HEADER_SIZE := FIXED_HEADER_SIZE this; buffer := b |}
  | _ => Throw (Error OccurrenceTimeArgument)
  end.

Definition getDetectionTime (this : HeaderObject) : completion number :=
  Buffer.readDoubleBE (buffer this) 15.

Definition setDetectionTime (this : HeaderObject) (detectionTime : value)
  : completion HeaderObject :=
  match detectionTime with
  | VNumber t =>
      if gt t MAX_TIME then Throw (Error DetectionTimeArgument) else
      b <- Buffer.writeDoubleBE (buffer this) t 15 ;;
      Return {| FIXED_HEADER_SIZE := FIXED_HEADER_SIZE this; buffer := b |}
  | _ => Throw (Error DetectionTimeArgument)
  end.

Definition getEventId (this : HeaderObject) : jsstring :=
  Buffer.toString (buffer this) 23 35.

Definition setEventId (this : HeaderObject) (eventId : value)
  : completion HeaderObject :=
  bad <- (if negb (is_type eventId TyString) then Return true
          else n <- stringByteLength eventId ;; Return (differs n 12)) ;;
  if bad then
    (* the message of the error calls stringByteLength (eventId) *)
    stringByteLength eventId ;;; Throw (Error EventIdArgument)
  else
  b <- Buffer.write (buffer this) eventId 23 ;;
  Return {| FIXED_HEADER_SIZE := FIXED_HEADER_SIZE this; buffer := b |}.

Definition getEventSource (this : HeaderObject) : jsstring :=
  Buffer.toString (buffer this) 35 47.

End Header.

(** ** Calls of the mutators, in sequence *)

Inductive call :=
| SetPayloadLength (payloadLength : value)
| SetOccurrenceTime (occurrenceTime : value)
| SetDetectionTime (detectionTime : value)
| SetEventId (eventId : value)
| SetComposed (composed : value).

Definition invoke (this : HeaderObject) (c : call) : completion HeaderObject :=
  match c with
  | SetPayloadLength v => setPayloadLength this v
  | SetOccurrenceTime v => setOccurrenceTime this v
  | SetDetectionTime v => setDetectionTime this v
  | SetEventId v => setEventId this v
  | SetComposed v => setComposed this v
  end.

(** The header after a call: a mutator validates before it writes, so a
    call that throws leaves the buffer as it was. *)
Definition after (this : HeaderObject) (c : call) : HeaderObject :=
  match invoke this c with
  | Return this' => this'
  | Throw _ => this
  end.

Definition run (this : HeaderObject) (calls : list call) : HeaderObject :=
  fold_left after calls this.

(** ** A granularity module for the examples

    The part of the module that the test of the repository fixes:
    [granularity.second] is 2 and [granularity.properties[2].name] is
    "second". *)
Definition example_granularity : granularity_module := {|
  members :=
    [("second"%string, Primitive (VNumber (of_Z 2)));
     ("properties"%string, Object)];
  properties := fun code =>
    if code =? 2 then Some {| name := VString (lit "second") |} else None
|}.

Definition example_header : HeaderObject :=
  Eval vm_compute in
  match Header example_granularity true
          [VString (lit "testEventType"); VNumber (of_Z 2);
           VString (lit "abcd-12345yz")] with
  | Return h => h
  | Throw _ => {| FIXED_HEADER_SIZE := 0; buffer := [] |}
  end.

(** ** Vocabulary of the statements *)

(** A header that the interface can produce: built by the constructor, then
    changed by calls of the mutators only. *)
Definition reachable (granularity : granularity_module) (h : HeaderObject) : Prop :=
  exists new arguments calls h0,
    Header granularity new arguments = Return h0 /\ h = run h0 calls.

(** What every header keeps: the size constant, the length [L] of its
    buffer, the length field, and a first byte. *)
Definition header_inv (L : Z) (h : HeaderObject) : Prop :=
  FIXED_HEADER_SIZE h = 47 /\
  Buffer.length (buffer h) = L /\
  47 <= L <= 65535 /\
  firstn 2 (skipn 1 (buffer h)) = Buffer.be_bytes 2 L /\
  0 <= Buffer.get_int (buffer h) 0 < 256.

(** The first byte of a header built for the code [c], after any calls:
    the code in the high four bits, the version in the low three. *)
Definition first_byte_inv (c : Z) (h : HeaderObject) : Prop :=
  (0 < List.length (buffer h))%nat /\
  0 <= Buffer.get_int (buffer h) 0 < 256 /\
  Z.shiftr (Buffer.get_int (buffer h) 0) 4 = c /\
  Z.land (Buffer.get_int (buffer h) 0) 7 = 1.

(** The stages of the constructor: the bits that the granularity argument
    [tg] adds to byte 0, the buffer for the event type [et] once the version
    and the length are written, and the effect of the fourth argument. *)
Definition granularity_bits (tg : value) : Z :=
  int32 (Z.shiftl (ToInt32 (ToNumber tg)) 4).

Definition with_length (et : jsstring) : Buffer.t :=
  let L := 47 + stringByteLength_string et in
  Buffer.blit (Buffer.set (repeat 0 (Z.to_nat L)) 0 PROTOCOL_VERSION) 1
              (Buffer.be_bytes 2 L).

Definition composed_argument (arguments : list value) (b : Buffer.t) : Buffer.t :=
  match argument arguments 3 with
  | VBoolean flag =>
      if Z.of_nat (List.length arguments) =? 4 then flip_composed b flag else b
  | _ => b
  end.

(** What the fourth argument does to a header built without it. *)
Definition fourth_argument (v : value) (h : HeaderObject) : completion HeaderObject :=
  match v with
  | VBoolean _ => setComposed h v
  | _ => Return h
  end.

(** The fields that the mutators set, the field a call sets, and what the
    getter of a field returns. *)
Inductive field :=
| PayloadLengthField
| OccurrenceTimeField
| DetectionTimeField
| EventIdField
| ComposedField.

Definition target (c : call) : field :=
  match c with
  | SetPayloadLength _ => PayloadLengthField
  | SetOccurrenceTime _ => OccurrenceTimeField
  | SetDetectionTime _ => DetectionTimeField
  | SetEventId _ => EventIdField
  | SetComposed _ => ComposedField
  end.

Inductive reading :=
| ReadLength (r : completion Z)
| ReadTime (r : completion number)
| ReadText (s : jsstring)
| ReadFlag (b : bool).

Definition read (f : field) (h : HeaderObject) : reading :=
  match f with
  | PayloadLengthField => ReadLength (getPayloadLength h)
  | OccurrenceTimeField => ReadTime (getOccurrenceTime h)
  | DetectionTimeField => ReadTime (getDetectionTime h)
  | EventIdField => ReadText (getEventId h)
  | ComposedField => ReadFlag (isComposed h)
  end.

(** Where the bytes of a field are. *)
Definition start (f : field) : nat :=
  match f with
  | PayloadLengthField => 3
  | OccurrenceTimeField => 7
  | DetectionTimeField => 15
  | EventIdField => 23
  | ComposedField => 0
  end.

Definition width (f : field) : nat :=
  match f with
  | PayloadLengthField => 4
  | OccurrenceTimeField => 8
  | DetectionTimeField => 8
  | EventIdField => 12
  | ComposedField => 1
  end.

(** A call whose argument, when it is an event id, is well-formed. *)
Definition benign (c : call) : Prop :=
  match c with
  | SetEventId (VString s) => Utf8.well_formed s = true
  | _ => True
  end.

(** The number of bytes of the UTF-8 encoding of a string. *)
Definition encoded_length (s : jsstring) : Z :=
  Z.of_nat (List.length (Utf8.encode s)).

(** ** Examples *)

Definition example_arguments : list value :=
  [VString (lit "testEventType"); VNumber (of_Z 2); VString (lit "abcd-12345yz")].

Definition example_calls : list call :=
  [SetPayloadLength (VNumber (of_Z 1024));
   SetComposed (VBoolean true);
   SetEventId (VString (lit "0123456789ab"));
   SetOccurrenceTime (VNumber (of_Z 1415577600000));
   SetDetectionTime (VString (lit "later"));
   SetComposed (VNumber (of_Z 1));
   SetEventId (VString (lit "short"))].

(** The string of a lone lead surrogate followed by nine letters: 12 bytes
    by [stringByteLength] and in UTF-8. *)
Definition lone_surrogate_id : jsstring := 0xD800 :: lit "abcdefghi".

(** U+00E9, a lone trail surrogate and eight letters: 12 bytes by
    [stringByteLength], 13 in UTF-8. *)
Definition overlong_id : jsstring := 0xE9 :: 0xDC00 :: lit "abcdefgh".

(** "A" followed by U+00E9, U+20AC, the pair of U+1F600 and "ed". *)
Definition example_text : jsstring :=
  0x41 :: 0xE9 :: 0x20AC :: 0xD83D :: 0xDE00 :: lit "ed".

(** Calls that set every field but the detection time. *)
Definition example_other_calls : list call :=
  [SetPayloadLength (VNumber (of_Z 1024));
   SetComposed (VBoolean true);
   SetEventId (VString (lit "0123456789ab"));
   SetOccurrenceTime (VNumber (of_Z 1415577600000));
   SetEventId (VString (lit "short"))].

(* ================================================================== *)
(** * Part III: lemmas *)
(* ================================================================== *)

(** ** Lists and buffers *)

Section BufferLemmas.

Import Buffer.

Lemma blit_length (b : t) (offset : nat) (bytes : list Z) :
  List.length (blit b offset bytes) = List.length b.
Proof.
  revert offset bytes.
  induction b as [|x b IH]; intros offset bytes; simpl; [reflexivity|].
  destruct offset as [|offset]; simpl.
  - destruct bytes as [|y bytes]; simpl; [reflexivity|].
    now rewrite IH.
  - now rewrite IH.
Qed.

Lemma blit_nil (b : t) (offset : nat) : blit b offset [] = b.
Proof.
  revert offset.
  induction b as [|x b IH]; intros [|offset]; simpl; try reflexivity.
  now rewrite IH.
Qed.

Lemma blit_nth_error_before (b : t) (offset : nat) (bytes : list Z) (i : nat) :
  (i < offset)%nat ->
  nth_error (blit b offset bytes) i = nth_error b i.
Proof.
  revert offset i.
  induction b as [|x b IH]; intros offset i Hi; simpl; [reflexivity|].
  destruct offset as [|offset]; [lia|].
  destruct i as [|i]; simpl; [reflexivity|].
  apply IH; lia.
Qed.

Lemma blit_nth_error_after (b : t) (offset : nat) (bytes : list Z) (i : nat) :
  (offset + List.length bytes <= i)%nat ->
  nth_error (blit b offset bytes) i = nth_error b i.
Proof.
  revert offset bytes i.
  induction b as [|x b IH]; intros offset bytes i Hi; simpl; [reflexivity|].
  destruct offset as [|offset].
  - destruct bytes as [|y bytes]; [reflexivity|].
    simpl in Hi. destruct i as [|i]; [lia|]. simpl.
    apply (IH O). simpl. lia.
  - destruct i as [|i]; [lia|]. simpl. apply IH. simpl in Hi. lia.
Qed.

Lemma blit_nth_error_inside (b : t) (offset : nat) (bytes : list Z) (i : nat) :
  (i < List.length bytes)%nat ->
  (offset + i < List.length b)%nat ->
  nth_error (blit b offset bytes) (offset + i) = nth_error bytes i.
Proof.
  revert offset bytes i.
  induction b as [|x b IH]; intros offset bytes i Hi Hb; simpl in *; [lia|].
  destruct offset as [|offset]; simpl.
  - destruct bytes as [|y bytes]; simpl in *; [lia|].
    destruct i as [|i]; simpl; [reflexivity|].
    apply (IH O); simpl; lia.
  - apply IH; lia.
Qed.

(** The bytes of a field after a write that covers it exactly. *)
Lemma blit_read_back (b : t) (offset : nat) (bytes : list Z) :
  (offset + List.length bytes <= List.length b)%nat ->
  firstn (List.length bytes) (skipn offset (blit b offset bytes)) = bytes.
Proof.
  intros Hfit. apply nth_error_ext. intros i.
  destruct (Nat.lt_ge_cases i (List.length bytes)) as [Hi|Hi].
  - rewrite nth_error_firstn.
    destruct (Nat.ltb_spec i (List.length bytes)); [|lia].
    rewrite nth_error_skipn. apply blit_nth_error_inside; lia.
  - rewrite nth_error_firstn.
    destruct (Nat.ltb_spec i (List.length bytes)); [lia|].
    symmetry. apply nth_error_None. lia.
Qed.

(** A field that the write does not overlap keeps its bytes. *)
Lemma blit_read_other (b : t) (offset : nat) (bytes : list Z) (a n : nat) :
  (a + n <= offset \/ offset + List.length bytes <= a)%nat ->
  firstn n (skipn a (blit b offset bytes)) = firstn n (skipn a b).
Proof.
  intros Hdisjoint. apply nth_error_ext. intros i.
  rewrite !nth_error_firstn.
  destruct (Nat.ltb_spec i n); [|reflexivity].
  rewrite !nth_error_skipn.
  destruct Hdisjoint.
  - apply blit_nth_error_before; lia.
  - apply blit_nth_error_after; lia.
Qed.

Lemma slice_nat (b : t) (a n : nat) :
  slice b (Z.of_nat a) (Z.of_nat a + Z.of_nat n) = firstn n (skipn a b).
Proof.
  unfold slice.
  replace (Z.max 0 (Z.of_nat a)) with (Z.of_nat a) by lia.
  replace (Z.of_nat a + Z.of_nat n - Z.of_nat a) with (Z.of_nat n) by lia.
  now rewrite !Nat2Z.id.
Qed.

Lemma get_nat (b : t) (i : nat) : get b (Z.of_nat i) = nth_error b i.
Proof.
  unfold get. destruct (Z.ltb_spec (Z.of_nat i) 0); [lia|].
  now rewrite Nat2Z.id.
Qed.

Lemma length_nat (b : t) : length b = Z.of_nat (List.length b).
Proof. reflexivity. Qed.

(** *** Big-endian fields *)

Lemma be_bytes_length (n : nat) (z : Z) : List.length (be_bytes n z) = n.
Proof. induction n; simpl; congruence. Qed.

Lemma be_value_bytes (n : nat) (z : Z) :
  0 <= z -> be_value (be_bytes n z) = z mod 256 ^ Z.of_nat n.
Proof.
  intros Hz. induction n as [|n IH].
  - simpl. now rewrite Z.mod_1_r.
  - cbn [be_bytes be_value]. rewrite be_bytes_length, IH.
    rewrite Nat2Z.inj_succ, Z.pow_succ_r by lia.
    assert (Hp : 0 < 256 ^ Z.of_nat n) by (apply Z.pow_pos_nonneg; lia).
    rewrite (Z.mul_comm 256), Z.rem_mul_r by lia.
    lia.
Qed.

Lemma be_value_bytes_small (n : nat) (z : Z) :
  0 <= z < 256 ^ Z.of_nat n -> be_value (be_bytes n z) = z.
Proof.
  intros Hz. rewrite be_value_bytes by lia. apply Z.mod_small; lia.
Qed.

End BufferLemmas.

Section NumberLemmas.

Lemma digits2_pos_bounds (p : positive) :
  2 ^ (Z.pos (digits2_pos p) - 1) <= Z.pos p < 2 ^ Z.pos (digits2_pos p).
Proof.
  induction p as [p IH|p IH|]; cbn [digits2_pos].
  - rewrite Pos2Z.inj_succ.
    replace (Z.succ (Z.pos (digits2_pos p)) - 1) with (Z.succ (Z.pos (digits2_pos p) - 1)) by lia.
    rewrite !Z.pow_succ_r by lia. lia.
  - rewrite Pos2Z.inj_succ.
    replace (Z.succ (Z.pos (digits2_pos p)) - 1) with (Z.succ (Z.pos (digits2_pos p) - 1)) by lia.
    rewrite !Z.pow_succ_r by lia. lia.
  - simpl. lia.
Qed.

Lemma iter_xO_value (k p : positive) :
  Z.pos (Pos.iter xO p k) = Z.pos p * 2 ^ Z.pos k.
Proof.
  induction k as [|k IH] using Pos.peano_ind.
  - simpl. lia.
  - rewrite Pos.iter_succ, Pos2Z.inj_xO, IH, Pos2Z.inj_succ, Z.pow_succ_r by lia.
    lia.
Qed.

Lemma iter_xO_digits (k p : positive) :
  Z.pos (digits2_pos (Pos.iter xO p k)) = Z.pos (digits2_pos p) + Z.pos k.
Proof.
  induction k as [|k IH] using Pos.peano_ind.
  - simpl. lia.
  - rewrite Pos.iter_succ. cbn [digits2_pos]. lia.
Qed.

(** A mantissa of 53 digits with an exponent in range needs no rounding. *)
Lemma binary_round_aux_exact (s : bool) (m : positive) (e : Z) :
  Z.pos (digits2_pos m) = 53 -> -1074 <= e <= 971 ->
  binary_round_aux prec emax s (Z.pos m) e loc_Exact = S754_finite s m e.
Proof.
  intros Hd He.
  assert (Hshr : shr_fexp prec emax (Z.pos m) e loc_Exact
                 = ({| shr_m := Z.pos m; shr_r := false; shr_s := false |}, e)).
  { unfold shr_fexp, fexp, emin, prec, emax. cbn [Zdigits2]. rewrite Hd.
    replace (Z.max (53 + e - 53) (3 - 1024 - 53) - e) with 0 by lia.
    reflexivity. }
  unfold binary_round_aux. rewrite Hshr. cbn [shr_m loc_of_shr_record round_nearest_even].
  rewrite Hshr. cbn [shr_m].
  unfold emax, prec. destruct (Z.leb_spec e (1024 - 53)); [reflexivity|lia].
Qed.

(** The number of a positive integer below [2^53] is the integer itself,
    its mantissa aligned on 53 digits. *)
Lemma of_Z_pos (p : positive) :
  Z.pos p < 2 ^ 53 ->
  exists m,
    of_Z (Z.pos p) = S754_finite false m (Z.pos (digits2_pos p) - 53) /\
    Z.pos m = Z.pos p * 2 ^ (53 - Z.pos (digits2_pos p)) /\
    Z.pos (digits2_pos m) = 53.
Proof.
  intros Hp.
  pose proof (digits2_pos_bounds p) as Hd.
  assert (Hd53 : Z.pos (digits2_pos p) <= 53).
  { destruct (Z.le_gt_cases (Z.pos (digits2_pos p)) 53) as [|Hgt]; [assumption|].
    assert (2 ^ 53 <= 2 ^ (Z.pos (digits2_pos p) - 1)) by (apply Z.pow_le_mono_r; lia).
    lia. }
  unfold of_Z, binary_normalize, binary_round, shl_align, fexp, emin, prec, emax.
  replace (Z.max (Z.pos (digits2_pos p) + 0 - 53) (3 - 1024 - 53))
    with (Z.pos (digits2_pos p) - 53) by lia.
  destruct (Z.pos (digits2_pos p) - 53 - 0) as [|k|k] eqn:Hk; try lia.
  - exists p. replace (Z.pos (digits2_pos p) - 53) with 0 by lia.
    replace (53 - Z.pos (digits2_pos p)) with 0 by lia.
    split; [|split; lia].
    apply binary_round_aux_exact; lia.
  - exists (Pos.iter xO p k).
    assert (Hk' : Z.pos k = 53 - Z.pos (digits2_pos p)) by lia.
    split; [|split].
    + apply binary_round_aux_exact; [rewrite iter_xO_digits|]; lia.
    + rewrite iter_xO_value. now rewrite Hk'.
    + rewrite iter_xO_digits. lia.
Qed.

Lemma truncate_of_Z (z : Z) : 0 <= z < 2 ^ 53 -> truncate (of_Z z) = z.
Proof.
  intros Hz. destruct z as [|p|p]; [reflexivity| |lia].
  destruct (of_Z_pos p) as (m & -> & Hm & _); [lia|].
  pose proof (digits2_pos_bounds p) as Hd.
  cbn [truncate]. rewrite Hm.
  assert (Hd53 : Z.pos (digits2_pos p) <= 53).
  { destruct (Z.le_gt_cases (Z.pos (digits2_pos p)) 53) as [|Hgt]; [assumption|].
    assert (2 ^ 53 <= 2 ^ (Z.pos (digits2_pos p) - 1)) by (apply Z.pow_le_mono_r; lia).
    lia. }
  replace (Z.pos (digits2_pos p) - 53) with (- (53 - Z.pos (digits2_pos p))) by lia.
  rewrite Z.shiftl_opp_r, Z.shiftr_div_pow2 by lia.
  apply Z.div_mul. apply Z.pow_nonzero; lia.
Qed.

Lemma digits2_pos_le_53 (p : positive) :
  Z.pos p < 2 ^ 53 -> Z.pos (digits2_pos p) <= 53.
Proof.
  intros Hp. pose proof (digits2_pos_bounds p) as Hd.
  destruct (Z.le_gt_cases (Z.pos (digits2_pos p)) 53) as [|Hgt]; [assumption|].
  assert (2 ^ 53 <= 2 ^ (Z.pos (digits2_pos p) - 1)) by (apply Z.pow_le_mono_r; lia).
  lia.
Qed.

(** On integers below [2^53] the order of the numbers is that of the
    integers. *)
Lemma compare_of_Z (a b : Z) :
  0 <= a < 2 ^ 53 -> 0 <= b < 2 ^ 53 ->
  SFcompare (of_Z a) (of_Z b) = Some (a ?= b).
Proof.
  intros Ha Hb.
  destruct a as [|p|p]; [| |lia]; destruct b as [|q|q]; try lia.
  - reflexivity.
  - destruct (of_Z_pos q) as (m & -> & _); [lia|]. reflexivity.
  - destruct (of_Z_pos p) as (m & -> & _); [lia|]. reflexivity.
  - destruct (of_Z_pos p) as (m & -> & Hm & _); [lia|].
    destruct (of_Z_pos q) as (n & -> & Hn & _); [lia|].
    pose proof (digits2_pos_bounds p) as Hdp.
    pose proof (digits2_pos_bounds q) as Hdq.
    pose proof (digits2_pos_le_53 p ltac:(lia)) as Hp53.
    pose proof (digits2_pos_le_53 q ltac:(lia)) as Hq53.
    cbn [SFcompare]. f_equal.
    destruct (Z.compare_spec (Z.pos (digits2_pos p) - 53) (Z.pos (digits2_pos q) - 53))
      as [He|He|He].
    + change (Pos.compare_cont Eq m n) with (Z.pos m ?= Z.pos n).
      assert (Hk : 0 < 2 ^ (53 - Z.pos (digits2_pos p))) by (apply Z.pow_pos_nonneg; lia).
      replace (Z.pos (digits2_pos q)) with (Z.pos (digits2_pos p)) in Hn by lia.
      rewrite Hm, Hn.
      destruct (Z.compare_spec (Z.pos p) (Z.pos q)) as [E|E|E].
      * rewrite E. apply Z.compare_refl.
      * apply Z.compare_lt_iff. nia.
      * apply Z.compare_gt_iff. nia.
    + symmetry. apply Z.compare_lt_iff.
      assert (2 ^ Z.pos (digits2_pos p) <= 2 ^ (Z.pos (digits2_pos q) - 1))
        by (apply Z.pow_le_mono_r; lia).
      lia.
    + symmetry. apply Z.compare_gt_iff.
      assert (2 ^ Z.pos (digits2_pos q) <= 2 ^ (Z.pos (digits2_pos p) - 1))
        by (apply Z.pow_le_mono_r; lia).
      lia.
Qed.

Lemma gt_of_Z (a b : Z) :
  0 <= a < 2 ^ 53 -> 0 <= b < 2 ^ 53 -> gt (of_Z a) (of_Z b) = (b <? a).
Proof.
  intros Ha Hb. unfold gt. rewrite compare_of_Z by assumption.
  destruct (Z.compare_spec a b); destruct (Z.ltb_spec b a); try reflexivity; lia.
Qed.

Lemma lt_of_Z (a b : Z) :
  0 <= a < 2 ^ 53 -> 0 <= b < 2 ^ 53 -> lt (of_Z a) (of_Z b) = (a <? b).
Proof.
  intros Ha Hb. unfold lt. rewrite compare_of_Z by assumption.
  destruct (Z.compare_spec a b); destruct (Z.ltb_spec a b); try reflexivity; lia.
Qed.

Lemma is_double_of_Z (z : Z) : 0 <= z < 2 ^ 53 -> is_double (of_Z z).
Proof.
  intros Hz. destruct z as [|p|p]; [reflexivity| |lia].
  destruct (of_Z_pos p) as (m & -> & _ & Hm); [lia|].
  pose proof (digits2_pos_le_53 p ltac:(lia)).
  unfold is_double, valid_binary, bounded, canonical_mantissa, fexp, emin, prec, emax.
  rewrite Hm.
  apply andb_true_iff. split; [apply Z.eqb_eq|apply Z.leb_le]; lia.
Qed.

Lemma ToUint32_of_Z (z : Z) : 0 <= z < 2 ^ 32 -> ToUint32 (of_Z z) = z.
Proof.
  intros Hz. unfold ToUint32. rewrite truncate_of_Z by lia.
  apply Z.mod_small. lia.
Qed.

End NumberLemmas.

Section DoubleBits.

Import Buffer.

Lemma decode_fields (s : bool) (e f : Z) :
  0 <= e < 2048 -> 0 <= f < 2 ^ 52 ->
  let bits := sign_bit s + (e * 2 ^ 52 + f) in
  (2 ^ 63 <=? bits) = s /\ (bits / 2 ^ 52) mod 2048 = e /\ bits mod 2 ^ 52 = f
  /\ 0 <= bits < 2 ^ 64.
Proof.
  intros He Hf bits. subst bits. unfold sign_bit.
  change (2 ^ 52) with 4503599627370496 in *.
  change (2 ^ 63) with 9223372036854775808.
  change (2 ^ 64) with 18446744073709551616.
  destruct s; (split; [|split; [|split]]).
  - apply Z.leb_le. lia.
  - Z.div_mod_to_equations. lia.
  - Z.div_mod_to_equations. lia.
  - lia.
  - apply Z.leb_gt. lia.
  - Z.div_mod_to_equations. lia.
  - Z.div_mod_to_equations. lia.
  - lia.
Qed.

Lemma finite_double_cases (s : bool) (m : positive) (e : Z) :
  is_double (S754_finite s m e) ->
  (Z.pos m < 2 ^ 52 /\ e = -1074) \/
  (2 ^ 52 <= Z.pos m < 2 ^ 53 /\ -1074 <= e <= 971).
Proof.
  unfold is_double, valid_binary, bounded, canonical_mantissa, fexp, emin, prec, emax.
  intros H. apply andb_true_iff in H as [Hc He].
  apply Z.eqb_eq in Hc. apply Z.leb_le in He.
  pose proof (digits2_pos_bounds m) as Hd.
  destruct (Z.le_gt_cases (Z.pos (digits2_pos m)) 52) as [Hle|Hgt].
  - left. split; [|lia].
    assert (2 ^ Z.pos (digits2_pos m) <= 2 ^ 52) by (apply Z.pow_le_mono_r; lia).
    lia.
  - right. assert (Z.pos (digits2_pos m) = 53) as Hd53 by lia.
    rewrite Hd53 in Hd. change (2 ^ (53 - 1)) with (2 ^ 52) in Hd. lia.
Qed.

Lemma bits_of_double_fields (x : number) :
  is_double x ->
  exists s e f,
    bits_of_double x = sign_bit s + (e * 2 ^ 52 + f) /\
    0 <= e < 2048 /\ 0 <= f < 2 ^ 52 /\
    double_of_bits (sign_bit s + (e * 2 ^ 52 + f)) = x.
Proof.
  intros Hx.
  assert (Hdec : forall s e f, 0 <= e < 2048 -> 0 <= f < 2 ^ 52 ->
    double_of_bits (sign_bit s + (e * 2 ^ 52 + f)) =
      if e =? 0 then
        match f with Z.pos m => S754_finite s m (-1074) | _ => S754_zero s end
      else if e =? 2047 then
        if f =? 0 then S754_infinity s else S754_nan
      else
        match f + 2 ^ 52 with
        | Z.pos m => S754_finite s m (e - 1075)
        | _ => S754_nan
        end).
  { intros s e f He Hf.
    destruct (decode_fields s e f He Hf) as (Hs & He' & Hf' & _).
    unfold double_of_bits. rewrite Hs, He', Hf'. reflexivity. }
  destruct x as [s|s| |s m e].
  - exists s, 0, 0. cbn [bits_of_double]. split; [f_equal; lia|].
    split; [lia|]. split; [lia|]. rewrite Hdec by lia. reflexivity.
  - exists s, 2047, 0. cbn [bits_of_double]. split; [f_equal; lia|].
    split; [lia|]. split; [lia|]. rewrite Hdec by lia. reflexivity.
  - exists false, 2047, (2 ^ 51). cbn [bits_of_double]. split; [reflexivity|].
    split; [lia|]. split; [lia|]. rewrite Hdec by lia. reflexivity.
  - destruct (finite_double_cases s m e Hx) as [[Hm He]|[Hm He]].
    + exists s, 0, (Z.pos m). cbn [bits_of_double].
      destruct (Z.ltb_spec (Z.pos m) (2 ^ 52)); [|lia].
      split; [f_equal|]. split; [lia|]. split; [lia|].
      rewrite Hdec by lia. subst e. reflexivity.
    + exists s, (e + 1075), (Z.pos m - 2 ^ 52). cbn [bits_of_double].
      destruct (Z.ltb_spec (Z.pos m) (2 ^ 52)); [lia|].
      split; [reflexivity|]. split; [lia|]. split; [lia|].
      rewrite Hdec by lia.
      destruct (Z.eqb_spec (e + 1075) 0); [lia|].
      destruct (Z.eqb_spec (e + 1075) 2047); [lia|].
      replace (Z.pos m - 2 ^ 52 + 2 ^ 52) with (Z.pos m) by lia.
      f_equal. lia.
Qed.

Theorem double_of_bits_of_double (x : number) :
  is_double x -> double_of_bits (bits_of_double x) = x.
Proof.
  intros Hx. destruct (bits_of_double_fields x Hx) as (s & e & f & -> & _ & _ & H).
  exact H.
Qed.

Lemma bits_of_double_range (x : number) :
  is_double x -> 0 <= bits_of_double x < 2 ^ 64.
Proof.
  intros Hx. destruct (bits_of_double_fields x Hx) as (s & e & f & -> & He & Hf & _).
  apply (decode_fields s e f He Hf).
Qed.

End DoubleBits.

(** ** UTF-16 strings and UTF-8 *)

Section Utf8Lemmas.

Import Utf8.

Lemma well_formed_induction (P : jsstring -> Prop) :
  P [] ->
  (forall c r, is_surrogate c = false -> 0 <= c <= 0xFFFF ->
               well_formed r = true -> P r -> P (c :: r)) ->
  (forall hi lo r, is_lead hi = true -> is_trail lo = true ->
                   well_formed r = true -> P r -> P (hi :: lo :: r)) ->
  forall s, well_formed s = true -> P s.
Proof.
  intros Hnil Hunit Hpair.
  assert (H : forall n s, (List.length s <= n)%nat -> well_formed s = true -> P s).
  { induction n as [|n IH]; intros s Hn Hs.
    - destruct s; [exact Hnil|simpl in Hn; lia].
    - destruct s as [|c r]; [exact Hnil|].
      simpl in Hn. cbn [well_formed] in Hs.
      destruct (is_lead c) eqn:Hc.
      + destruct r as [|d r']; [discriminate|].
        apply andb_true_iff in Hs as [Hd Hr].
        apply Hpair; try assumption. apply IH; [simpl in Hn; lia|assumption].
      + apply andb_true_iff in Hs as [Hs Hr].
        apply andb_true_iff in Hs as [Ht Hrange].
        apply Hunit; try assumption.
        * unfold is_surrogate, is_lead, is_trail in *. lia.
        * lia.
        * apply IH; [lia|assumption]. }
  intros s. apply (H (List.length s)). lia.
Qed.

Lemma paired_cons_unit (c : Z) (s : jsstring) :
  paired s -> is_surrogate c = false -> 0 <= c <= 0xFFFF -> paired (c :: s).
Proof.
  intros Hs Hc Hr. induction Hs as [|s d Hs IH Hd Hdr|s hi lo Hs IH Hhi Hlo].
  - apply (paired_unit [] c); [constructor|assumption..].
  - apply (paired_unit (c :: s) d); assumption.
  - apply (paired_pair (c :: s) hi lo); assumption.
Qed.

Lemma paired_cons_pair (hi lo : Z) (s : jsstring) :
  paired s -> is_lead hi = true -> is_trail lo = true -> paired (hi :: lo :: s).
Proof.
  intros Hs Hhi Hlo. induction Hs as [|s d Hs IH Hd Hdr|s hi' lo' Hs IH Hhi' Hlo'].
  - apply (paired_pair [] hi lo); [constructor|assumption..].
  - apply (paired_unit (hi :: lo :: s) d); assumption.
  - apply (paired_pair (hi :: lo :: s) hi' lo'); assumption.
Qed.

Lemma well_formed_paired (s : jsstring) : well_formed s = true -> paired s.
Proof.
  revert s. apply well_formed_induction.
  - constructor.
  - intros c r Hc Hr _ IH. now apply paired_cons_unit.
  - intros hi lo r Hhi Hlo _ IH. now apply paired_cons_pair.
Qed.

Lemma code_points_unit (c : Z) (r : jsstring) :
  is_surrogate c = false -> code_points (c :: r) = c :: code_points r.
Proof.
  intros Hc. cbn [code_points].
  replace (is_lead c) with false by (unfold is_surrogate, is_lead in *; lia).
  replace (is_trail c) with false by (unfold is_surrogate, is_trail in *; lia).
  reflexivity.
Qed.

Lemma code_points_pair (hi lo : Z) (r : jsstring) :
  is_lead hi = true -> is_trail lo = true ->
  code_points (hi :: lo :: r) = pair_code_point hi lo :: code_points r.
Proof. intros Hhi Hlo. cbn [code_points]. now rewrite Hhi, Hlo. Qed.

Lemma code_points_app (s r : jsstring) :
  paired s -> code_points (s ++ r) = code_points s ++ code_points r.
Proof.
  intros Hs. revert r.
  induction Hs as [|s c Hs IH Hc Hcr|s hi lo Hs IH Hhi Hlo]; intros r.
  - reflexivity.
  - rewrite <- app_assoc, !IH. cbn [app].
    rewrite !code_points_unit by assumption.
    now rewrite <- app_assoc.
  - rewrite <- app_assoc, !IH. cbn [app].
    rewrite !code_points_pair by assumption.
    now rewrite <- app_assoc.
Qed.

Lemma encode_app (s r : jsstring) :
  paired s -> encode (s ++ r) = encode s ++ encode r.
Proof.
  intros Hs. unfold encode. rewrite code_points_app by assumption.
  apply flat_map_app.
Qed.

(** The size of an encoded code point, by range. *)
Lemma encode_code_point_length (cp : Z) :
  Z.of_nat (List.length (encode_code_point cp)) =
    if cp <? 0x80 then 1 else if cp <? 0x800 then 2
    else if cp <? 0x10000 then 3 else 4.
Proof.
  unfold encode_code_point.
  destruct (cp <? 0x80), (cp <? 0x800), (cp <? 0x10000); reflexivity.
Qed.

End Utf8Lemmas.

(** ** [stringByteLength] *)

Section StringByteLengthLemmas.

Import Utf8.

(** The loop needs [i + 1] iterations at most; more fuel changes nothing. *)
Lemma stringByteLength_loop_fuel (f1 f2 : nat) (str : jsstring) (i s : Z) :
  (Z.to_nat (i + 1) <= f1)%nat -> (Z.to_nat (i + 1) <= f2)%nat ->
  stringByteLength_loop f1 str i s = stringByteLength_loop f2 str i s.
Proof.
  revert f2 i s.
  induction f1 as [|f1 IH]; intros [|f2] i s H1 H2; cbn [stringByteLength_loop].
  - reflexivity.
  - destruct (Z.leb_spec 0 i); [lia|reflexivity].
  - destruct (Z.leb_spec 0 i); [lia|reflexivity].
  - destruct (Z.leb_spec 0 i); [|reflexivity].
    apply IH; destruct ((0xDC00 <=? charCodeAt str i) && (charCodeAt str i <=? 0xDFFF)); lia.
Qed.

Lemma charCodeAt_middle (pre suf : jsstring) (c : Z) :
  charCodeAt (pre ++ c :: suf) (Z.of_nat (List.length pre)) = c.
Proof. unfold charCodeAt. rewrite Nat2Z.id. apply nth_middle. Qed.

Lemma encode_unit (c : Z) :
  is_surrogate c = false -> encode [c] = encode_code_point c.
Proof.
  intros Hc. unfold encode. rewrite code_points_unit by assumption.
  cbn. apply app_nil_r.
Qed.

Lemma encode_pair (hi lo : Z) :
  is_lead hi = true -> is_trail lo = true ->
  encode [hi; lo] = encode_code_point (pair_code_point hi lo).
Proof.
  intros Hhi Hlo. unfold encode. rewrite code_points_pair by assumption.
  cbn. apply app_nil_r.
Qed.

Lemma stringByteLength_loop_paired (pre : jsstring) :
  paired pre ->
  forall (suf : jsstring) (fuel : nat) (s : Z),
    (List.length pre <= fuel)%nat ->
    stringByteLength_loop fuel (pre ++ suf) (Z.of_nat (List.length pre) - 1) s
    = s + Z.of_nat (List.length (encode pre)) - Z.of_nat (List.length pre).
Proof.
  induction 1 as [|p c Hp IH Hc Hcr|p hi lo Hp IH Hhi Hlo]; intros suf fuel s Hfuel.
  - destruct fuel; cbn; lia.
  - rewrite length_app in *. cbn [List.length] in *.
    destruct fuel as [|fuel]; [lia|].
    cbn [stringByteLength_loop].
    replace (Z.of_nat (List.length p + 1) - 1) with (Z.of_nat (List.length p)) by lia.
    destruct (Z.leb_spec 0 (Z.of_nat (List.length p))); [|lia].
    rewrite <- app_assoc. cbn [app]. rewrite charCodeAt_middle.
    replace ((0xDC00 <=? c) && (c <=? 0xDFFF)) with false
      by (unfold is_surrogate in Hc; lia).
    change (p ++ c :: suf) with (p ++ [c] ++ suf).
    rewrite IH by lia.
    rewrite encode_app, length_app, encode_unit by assumption.
    rewrite Nat2Z.inj_add, encode_code_point_length.
    unfold is_surrogate in Hc.
    destruct (Z.ltb_spec c 0x80), (Z.ltb_spec c 0x800), (Z.ltb_spec c 0x10000);
      try lia;
      destruct (Z.ltb_spec 0x7f c), (Z.leb_spec c 0x7ff),
               (Z.ltb_spec 0x7ff c), (Z.leb_spec c 0xffff); cbn [andb]; lia.
  - rewrite length_app in *. cbn [List.length] in *.
    destruct fuel as [|fuel]; [lia|].
    cbn [stringByteLength_loop].
    replace (Z.of_nat (List.length p + 2) - 1) with (Z.of_nat (List.length (p ++ [hi]))).
    2:{ rewrite length_app. cbn [List.length]. lia. }
    destruct (Z.leb_spec 0 (Z.of_nat (List.length (p ++ [hi])))); [|lia].
    replace ((p ++ [hi; lo]) ++ suf) with ((p ++ [hi]) ++ lo :: suf)
      by (now rewrite <- !app_assoc).
    rewrite charCodeAt_middle.
    replace ((0xDC00 <=? lo) && (lo <=? 0xDFFF)) with true
      by (unfold is_trail in Hlo; lia).
    replace ((0x7f <? lo) && (lo <=? 0x7ff)) with false
      by (unfold is_trail in Hlo; lia).
    replace ((0x7ff <? lo) && (lo <=? 0xffff)) with true
      by (unfold is_trail in Hlo; lia).
    replace (Z.of_nat (List.length (p ++ [hi])) - 1 - 1)
      with (Z.of_nat (List.length p) - 1)
      by (rewrite length_app; cbn [List.length]; lia).
    replace ((p ++ [hi]) ++ lo :: suf) with (p ++ [hi; lo] ++ suf)
      by (now rewrite <- !app_assoc).
    rewrite IH by lia.
    rewrite encode_app, length_app, encode_pair by assumption.
    rewrite Nat2Z.inj_add, encode_code_point_length.
    unfold is_lead in Hhi. unfold is_trail in Hlo. unfold pair_code_point.
    destruct (Z.ltb_spec (0x10000 + (hi - 0xD800) * 1024 + (lo - 0xDC00)) 0x80),
             (Z.ltb_spec (0x10000 + (hi - 0xD800) * 1024 + (lo - 0xDC00)) 0x800),
             (Z.ltb_spec (0x10000 + (hi - 0xD800) * 1024 + (lo - 0xDC00)) 0x10000);
      lia.
Qed.

(** On a well-formed string [stringByteLength] is the length of the UTF-8
    encoding. *)
Lemma stringByteLength_string_encode (str : jsstring) :
  well_formed str = true ->
  stringByteLength_string str = Z.of_nat (List.length (encode str)).
Proof.
  intros Hwf. unfold stringByteLength_string.
  pose proof (stringByteLength_loop_paired str (well_formed_paired str Hwf)
                [] (List.length str) (Z.of_nat (List.length str))) as H.
  rewrite app_nil_r in H. rewrite H by lia. lia.
Qed.

End StringByteLengthLemmas.

(** ** Decoding what was encoded *)

Section Utf8RoundTrip.

Import Utf8.

Lemma next_byte_first (st : decoder) (b : Z) :
  bytes_needed st = 0 -> next_byte st b = first_byte b.
Proof. intros H. unfold next_byte. now rewrite H. Qed.

Lemma next_byte_continuation (cp n k lo up b : Z) :
  n <> 0 -> lo <= b <= up ->
  next_byte (Build_decoder cp n k lo up) b =
    if k + 1 =? n then (idle, [cp * 64 + (b - 0x80)])
    else (Build_decoder (cp * 64 + (b - 0x80)) n (k + 1) 0x80 0xBF, []).
Proof.
  intros Hn Hb. unfold next_byte.
  cbn [bytes_needed bytes_seen code_point lower_boundary upper_boundary].
  destruct (Z.eqb_spec n 0); [contradiction|].
  replace ((b <? lo) || (up <? b)) with false by lia.
  reflexivity.
Qed.

Lemma next_byte_last (cp n k lo up b : Z) :
  n <> 0 -> k + 1 = n -> lo <= b <= up ->
  next_byte (Build_decoder cp n k lo up) b = (idle, [cp * 64 + (b - 0x80)]).
Proof.
  intros Hn Hk Hb. rewrite next_byte_continuation by assumption.
  now replace (k + 1 =? n) with true by lia.
Qed.

Lemma next_byte_more (cp n k lo up b : Z) :
  n <> 0 -> k + 1 <> n -> lo <= b <= up ->
  next_byte (Build_decoder cp n k lo up) b =
    (Build_decoder (cp * 64 + (b - 0x80)) n (k + 1) 0x80 0xBF, []).
Proof.
  intros Hn Hk Hb. rewrite next_byte_continuation by assumption.
  now replace (k + 1 =? n) with false by lia.
Qed.

Lemma first_byte_one (b : Z) : b <= 0x7F -> first_byte b = (idle, [b]).
Proof.
  intros H. unfold first_byte. now replace (b <=? 0x7F) with true by lia.
Qed.

Lemma first_byte_two (b : Z) :
  0xC2 <= b <= 0xDF ->
  first_byte b = (Build_decoder (b - 0xC0) 1 0 0x80 0xBF, []).
Proof.
  intros H. unfold first_byte.
  replace (b <=? 0x7F) with false by lia.
  now replace ((0xC2 <=? b) && (b <=? 0xDF)) with true by lia.
Qed.

Lemma first_byte_three (b : Z) :
  0xE0 <= b <= 0xEF ->
  first_byte b =
    (Build_decoder (b - 0xE0) 2 0
       (if b =? 0xE0 then 0xA0 else 0x80) (if b =? 0xED then 0x9F else 0xBF), []).
Proof.
  intros H. unfold first_byte.
  replace (b <=? 0x7F) with false by lia.
  replace ((0xC2 <=? b) && (b <=? 0xDF)) with false by lia.
  now replace ((0xE0 <=? b) && (b <=? 0xEF)) with true by lia.
Qed.

Lemma first_byte_four (b : Z) :
  0xF0 <= b <= 0xF4 ->
  first_byte b =
    (Build_decoder (b - 0xF0) 3 0
       (if b =? 0xF0 then 0x90 else 0x80) (if b =? 0xF4 then 0x8F else 0xBF), []).
Proof.
  intros H. unfold first_byte.
  replace (b <=? 0x7F) with false by lia.
  replace ((0xC2 <=? b) && (b <=? 0xDF)) with false by lia.
  replace ((0xE0 <=? b) && (b <=? 0xEF)) with false by lia.
  now replace ((0xF0 <=? b) && (b <=? 0xF4)) with true by lia.
Qed.

Ltac arith := Z.div_mod_to_equations; lia.

Lemma decode_from_code_point (cp : Z) (rest : list Z) :
  scalar cp ->
  decode_from idle (encode_code_point cp ++ rest) = cp :: decode_from idle rest.
Proof.
  intros Hcp. unfold scalar in Hcp. unfold encode_code_point.
  destruct (Z.ltb_spec cp 0x80) as [H1|H1];
    [|destruct (Z.ltb_spec cp 0x800) as [H2|H2];
      [|destruct (Z.ltb_spec cp 0x10000) as [H3|H3]]];
    cbn [app decode_from].
  - rewrite next_byte_first, first_byte_one by (reflexivity || lia).
    reflexivity.
  - rewrite next_byte_first, first_byte_two by (reflexivity || arith).
    rewrite next_byte_last by (lia || arith).
    cbn [app]. f_equal. arith.
  - rewrite next_byte_first, first_byte_three by (reflexivity || arith).
    rewrite next_byte_more.
    2, 3: lia.
    2:{ destruct (Z.eqb_spec (0xE0 + cp / 4096) 0xE0),
                 (Z.eqb_spec (0xE0 + cp / 4096) 0xED); arith. }
    rewrite next_byte_last by (lia || arith).
    cbn [app]. f_equal. arith.
  - rewrite next_byte_first, first_byte_four by (reflexivity || arith).
    rewrite next_byte_more.
    2, 3: lia.
    2:{ destruct (Z.eqb_spec (0xF0 + cp / 262144) 0xF0),
                 (Z.eqb_spec (0xF0 + cp / 262144) 0xF4); arith. }
    rewrite next_byte_more by (lia || arith).
    rewrite next_byte_last by (lia || arith).
    cbn [app]. f_equal. arith.
Qed.

Lemma decode_from_encode (cps : list Z) :
  Forall scalar cps -> decode_from idle (flat_map encode_code_point cps) = cps.
Proof.
  induction 1 as [|cp cps Hcp _ IH]; [reflexivity|].
  cbn [flat_map]. rewrite decode_from_code_point by assumption.
  now rewrite IH.
Qed.

Lemma code_points_scalar (s : jsstring) :
  well_formed s = true -> Forall scalar (code_points s).
Proof.
  revert s. apply well_formed_induction.
  - constructor.
  - intros c r Hc Hr _ IH. rewrite code_points_unit by assumption.
    constructor; [|assumption].
    unfold scalar. unfold is_surrogate in Hc. lia.
  - intros hi lo r Hhi Hlo _ IH. rewrite code_points_pair by assumption.
    constructor; [|assumption].
    unfold scalar, pair_code_point. unfold is_lead in Hhi. unfold is_trail in Hlo.
    lia.
Qed.

Lemma code_units_code_points (s : jsstring) :
  well_formed s = true -> flat_map code_units (code_points s) = s.
Proof.
  revert s. apply well_formed_induction.
  - reflexivity.
  - intros c r Hc Hr _ IH. rewrite code_points_unit by assumption.
    cbn [flat_map]. rewrite IH. unfold code_units.
    now replace (c <? 0x10000) with true by lia.
  - intros hi lo r Hhi Hlo _ IH. rewrite code_points_pair by assumption.
    cbn [flat_map]. rewrite IH.
    unfold code_units, pair_code_point.
    unfold is_lead in Hhi. unfold is_trail in Hlo.
    replace (0x10000 + (hi - 0xD800) * 1024 + (lo - 0xDC00) <? 0x10000)
      with false by lia.
    cbn [app]. f_equal; [|f_equal]; arith.
Qed.

(** Decoding the encoding of a well-formed string gives the string back. *)
Theorem decode_encode (s : jsstring) :
  well_formed s = true -> decode (encode s) = s.
Proof.
  intros Hs. unfold decode, encode.
  rewrite decode_from_encode by now apply code_points_scalar.
  now apply code_units_code_points.
Qed.

End Utf8RoundTrip.

(** ** Writes and what they leave alone *)

Lemma Return_inj {A} (a b : A) : Return a = Return b -> a = b.
Proof. congruence. Qed.

Section WriteLemmas.

Import Buffer.

Lemma set_0 (b : t) (v : Z) : set b 0 v = blit b 0 [v mod 256].
Proof. reflexivity. Qed.

Lemma write_Return (b b' : t) (v : value) (offset : Z) :
  write b v offset = Return b' ->
  exists s bytes,
    v = VString s /\ 0 <= offset <= length b /\
    b' = blit b (Z.to_nat offset) bytes /\
    bytes = fit (map Utf8.encode_code_point (Utf8.code_points s))
                (List.length b - Z.to_nat offset).
Proof.
  unfold write. destruct v as [| | | |s]; try discriminate.
  destruct ((0 <=? offset) && (offset <=? length b)) eqn:E; [|discriminate].
  intros [= <-]. exists s. eexists. repeat split; lia.
Qed.

Lemma fit_all (chars : list (list Z)) (room : nat) :
  (List.length (List.concat chars) <= room)%nat -> fit chars room = List.concat chars.
Proof.
  revert room. induction chars as [|ch r IH]; intros room H; [reflexivity|].
  cbn [fit List.concat] in *. rewrite length_app in H.
  destruct (Nat.leb_spec (List.length ch) room); [|lia].
  rewrite IH by lia. reflexivity.
Qed.

Lemma fit_encode (s : jsstring) (room : nat) :
  (List.length (Utf8.encode s) <= room)%nat ->
  fit (map Utf8.encode_code_point (Utf8.code_points s)) room = Utf8.encode s.
Proof.
  intros H. unfold Utf8.encode in *. rewrite flat_map_concat_map in *.
  now apply fit_all.
Qed.

Lemma get_blit_outside (b : t) (offset : nat) (bytes : list Z) (i : Z) :
  i < Z.of_nat offset \/ Z.of_nat offset + Z.of_nat (List.length bytes) <= i ->
  get (blit b offset bytes) i = get b i.
Proof.
  intros H. unfold get. destruct (Z.ltb_spec i 0); [reflexivity|].
  destruct H; [apply blit_nth_error_before|apply blit_nth_error_after]; lia.
Qed.

Lemma get_int_blit_outside (b : t) (offset : nat) (bytes : list Z) (i : Z) :
  i < Z.of_nat offset \/ Z.of_nat offset + Z.of_nat (List.length bytes) <= i ->
  get_int (blit b offset bytes) i = get_int b i.
Proof. intros H. unfold get_int. now rewrite get_blit_outside. Qed.

Lemma get_int_set_0 (b : t) (v : Z) :
  (0 < List.length b)%nat -> get_int (set b 0 v) 0 = v mod 256.
Proof.
  intros H. unfold get_int, get. cbn.
  destruct b as [|x b]; [simpl in H; lia|]. reflexivity.
Qed.

Lemma flip_composed_blit (b : t) (flag : bool) :
  exists bytes, flip_composed b flag = blit b 0 bytes /\ (List.length bytes <= 1)%nat.
Proof.
  unfold flip_composed.
  destruct (Bool.eqb _ flag).
  - eexists. rewrite set_0. split; [reflexivity|simpl; lia].
  - exists []. rewrite blit_nil. split; [reflexivity|simpl; lia].
Qed.

Lemma readUInt16BE_field (b : t) (z : Z) :
  (3 <= List.length b)%nat -> 0 <= z < 65536 ->
  firstn 2 (skipn 1 b) = be_bytes 2 z ->
  readUInt16BE b 1 = Return z.
Proof.
  intros Hlen Hz Hfield. unfold readUInt16BE, readUIntBE, in_bounds.
  rewrite length_nat. change (Z.of_nat 2) with 2.
  replace ((0 <=? 1) && (1 + 2 <=? Z.of_nat (List.length b))) with true by lia.
  change (slice b 1 (1 + 2)) with (slice b (Z.of_nat 1) (Z.of_nat 1 + Z.of_nat 2)).
  rewrite slice_nat, Hfield.
  rewrite be_value_bytes_small; [reflexivity|]. change (256 ^ Z.of_nat 2) with 65536. lia.
Qed.

End WriteLemmas.

(** ** The constructor *)

Section ConstructorLemmas.

Variable granularity : granularity_module.

Lemma writeUInt16BE_of_Z (b : Buffer.t) (z offset : Z) :
  0 <= z < 2 ^ 53 ->
  Buffer.writeUInt16BE b (of_Z z) offset =
    if 65535 <? z then Throw RangeError
    else if Buffer.in_bounds b offset 2
         then Return (Buffer.blit b (Z.to_nat offset) (Buffer.be_bytes 2 z))
         else Throw RangeError.
Proof.
  intros Hz. unfold Buffer.writeUInt16BE, Buffer.writeUIntBE.
  change (256 ^ Z.of_nat 2 - 1) with 65535. change (Z.of_nat 2) with 2.
  rewrite gt_of_Z, lt_of_Z by lia.
  destruct (Z.ltb_spec 65535 z); [reflexivity|].
  destruct (Z.ltb_spec z 0); [lia|]. cbn [orb].
  rewrite ToUint32_of_Z by lia. reflexivity.
Qed.

Lemma stringByteLength_loop_lower (fuel : nat) (str : jsstring) (i s : Z) :
  s <= stringByteLength_loop fuel str i s.
Proof.
  revert i s. induction fuel as [|fuel IH]; intros i s; cbn [stringByteLength_loop]; [lia|].
  destruct (0 <=? i); [|lia].
  etransitivity; [|apply IH].
  destruct (_ && _); [lia|]. destruct (_ && _); lia.
Qed.

Lemma stringByteLength_string_lower (str : jsstring) :
  Z.of_nat (List.length str) <= stringByteLength_string str.
Proof. apply stringByteLength_loop_lower. Qed.

Ltac step H :=
  match type of H with
  | bind ?c _ = Return _ =>
      let E := fresh "E" in destruct c eqn:E; cbn [bind] in H; [|discriminate H]
  | (if ?c then _ else _) = Return _ =>
      let E := fresh "E" in destruct c eqn:E; try discriminate H
  end.

(** A successful construction, step by step. *)
Lemma Header_new_Return (arguments : list value) (h : HeaderObject) :
  Header_new granularity arguments = Return h ->
  exists et es b2 b4,
    argument arguments 0 = VString et /\
    argument arguments 2 = VString es /\
    3 <= Z.of_nat (List.length arguments) <= 4 /\
    gt (ToNumber (VString et)) (of_Z 65488) = false /\
    47 + stringByteLength_string et <= 65535 /\
    validateEnumValue (argument arguments 1) (members granularity) = true /\
    stringByteLength_string es = 12 /\
    Buffer.write (with_length et) (VString et) 47 = Return b2 /\
    Buffer.write
      (Buffer.set b2 0
         (Z.lor (Buffer.get_int b2 0) (granularity_bits (argument arguments 1))))
      (VString es) 35 = Return b4 /\
    h = {| FIXED_HEADER_SIZE := 47; buffer := composed_argument arguments b4 |}.
Proof.
  intros H. unfold Header_new in H. cbv zeta in H.
  step H. step H. step H. step H. step H.
  destruct (argument arguments 0) as [| | | |et] eqn:Het;
    cbn in E0, E2; try discriminate;
    try (apply Return_inj in E2; subst a0; cbn in E3; discriminate).
  apply Return_inj in E0, E2. subst a a0. cbn [orb] in E1.
  cbn [option_map] in E3. unfold Buffer.new in E3.
  destruct ((_FIXED_HEADER_SIZE + stringByteLength_string et <? 0)
            || (Buffer.kMaxLength <? _FIXED_HEADER_SIZE + stringByteLength_string et))
    eqn:Esize; [discriminate|].
  apply Return_inj in E3. subst a1.
  unfold _FIXED_HEADER_SIZE, Buffer.kMaxLength in *.
  pose proof (stringByteLength_string_lower et) as Hlow.
  assert (Hlen : Buffer.length (Buffer.set (repeat 0 (Z.to_nat (47 + stringByteLength_string et))) 0 PROTOCOL_VERSION)
                 = 47 + stringByteLength_string et).
  { rewrite set_0, length_nat, blit_length, repeat_length. lia. }
  rewrite Hlen in H.
  rewrite writeUInt16BE_of_Z in H by lia.
  destruct (Z.ltb_spec 65535 (47 + stringByteLength_string et)) as [|Hmax];
    [discriminate|].
  unfold Buffer.in_bounds in H. rewrite Hlen in H.
  replace ((0 <=? 1) && (1 + 2 <=? 47 + stringByteLength_string et)) with true in H by lia.
  cbn [bind] in H.
  step H. step H. step H.
  destruct (argument arguments 2) as [| | | |es] eqn:Hes;
    cbn [is_type typeof type_name_eqb negb bind stringByteLength differs] in E3;
    apply Return_inj in E3; subst a0;
    try (cbn [stringByteLength bind] in H; discriminate).
  destruct (Z.eqb_spec (stringByteLength_string es) 12) as [Hes12|]; cbn [negb] in H;
    [|discriminate].
  step H. apply Return_inj in H. subst h.
  exists et, es, a, a0. repeat split; try assumption; try lia.
  now apply negb_false_iff.
Qed.

End ConstructorLemmas.

(** ** What the constructor establishes and the mutators keep *)

Section Invariant.

Variable granularity : granularity_module.

Lemma header_inv_blit (L : Z) (h : HeaderObject) (offset : nat) (bytes : list Z) :
  (3 <= offset)%nat -> header_inv L h ->
  header_inv L {| FIXED_HEADER_SIZE := FIXED_HEADER_SIZE h;
                  buffer := Buffer.blit (buffer h) offset bytes |}.
Proof.
  intros Hoff (Hsize & Hlen & HL & Hfield & Hbyte).
  unfold header_inv. cbn [FIXED_HEADER_SIZE buffer].
  split; [assumption|]. split; [|split; [assumption|split]].
  - rewrite length_nat, blit_length. exact Hlen.
  - rewrite blit_read_other by lia. exact Hfield.
  - rewrite get_int_blit_outside by lia. exact Hbyte.
Qed.

Lemma get_int_flip_composed (b : Buffer.t) (flag : bool) :
  0 <= Buffer.get_int b 0 < 256 ->
  0 <= Buffer.get_int (flip_composed b flag) 0 < 256.
Proof.
  intros Hb. unfold flip_composed. destruct (Bool.eqb _ flag); [|assumption].
  destruct b as [|x b]; [cbn; lia|].
  rewrite get_int_set_0 by (simpl; lia).
  apply Z.mod_pos_bound. lia.
Qed.

Lemma header_inv_flip_composed (L : Z) (h : HeaderObject) (flag : bool) :
  header_inv L h ->
  header_inv L {| FIXED_HEADER_SIZE := FIXED_HEADER_SIZE h;
                  buffer := flip_composed (buffer h) flag |}.
Proof.
  intros (Hsize & Hlen & HL & Hfield & Hbyte).
  unfold header_inv. cbn [FIXED_HEADER_SIZE buffer].
  destruct (flip_composed_blit (buffer h) flag) as (bytes & Hflip & Hbytes).
  split; [assumption|]. split; [|split; [assumption|split]].
  - rewrite Hflip, length_nat, blit_length. exact Hlen.
  - rewrite Hflip, blit_read_other by lia. exact Hfield.
  - now apply get_int_flip_composed.
Qed.

(** What a mutator that returns has done to the buffer. *)
Lemma invoke_Return (h h' : HeaderObject) (c : call) :
  invoke h c = Return h' ->
  FIXED_HEADER_SIZE h' = FIXED_HEADER_SIZE h /\
  ((exists offset bytes, (3 <= offset)%nat /\
      buffer h' = Buffer.blit (buffer h) offset bytes) \/
   (exists flag, buffer h' = flip_composed (buffer h) flag)).
Proof.
  destruct c as [v|v|v|v|v]; cbn [invoke].
  - unfold setPayloadLength. destruct v as [| | |n|]; try discriminate.
    destruct (gt n (of_Z 4294967295)); [discriminate|].
    unfold Buffer.writeUInt32BE, Buffer.writeUIntBE.
    destruct (_ || _); [discriminate|].
    destruct (Buffer.in_bounds (buffer h) 3 (Z.of_nat 4)); [|discriminate].
    cbn [bind]. intros H. apply Return_inj in H. subst h'.
    split; [reflexivity|]. left. cbn [buffer].
    exists (Z.to_nat 3). eexists. split; [lia|reflexivity].
  - unfold setOccurrenceTime. destruct v as [| | |t|]; try discriminate.
    destruct (gt t MAX_TIME); [discriminate|].
    unfold Buffer.writeDoubleBE.
    destruct (Buffer.in_bounds (buffer h) 7 8); [|discriminate].
    cbn [bind]. intros H. apply Return_inj in H. subst h'.
    split; [reflexivity|]. left. cbn [buffer].
    exists (Z.to_nat 7). eexists. split; [lia|reflexivity].
  - unfold setDetectionTime. destruct v as [| | |t|]; try discriminate.
    destruct (gt t MAX_TIME); [discriminate|].
    unfold Buffer.writeDoubleBE.
    destruct (Buffer.in_bounds (buffer h) 15 8); [|discriminate].
    cbn [bind]. intros H. apply Return_inj in H. subst h'.
    split; [reflexivity|]. left. cbn [buffer].
    exists (Z.to_nat 15). eexists. split; [lia|reflexivity].
  - unfold setEventId. destruct v as [| | | |s]; try discriminate.
    cbn [is_type typeof type_name_eqb negb bind stringByteLength differs].
    destruct (negb (stringByteLength_string s =? 12)); [discriminate|].
    destruct (Buffer.write (buffer h) (VString s) 23) as [b|] eqn:Hw; [|discriminate].
    cbn [bind]. intros H. apply Return_inj in H. subst h'.
    split; [reflexivity|]. left. cbn [buffer].
    apply write_Return in Hw as (s' & bytes & _ & _ & -> & _).
    exists (Z.to_nat 23), bytes. split; [lia|reflexivity].
  - unfold setComposed. destruct v as [| |flag| |]; try discriminate.
    intros H. apply Return_inj in H. subst h'.
    split; [reflexivity|]. right. now exists flag.
Qed.

Lemma header_inv_after (L : Z) (h : HeaderObject) (c : call) :
  header_inv L h -> header_inv L (after h c).
Proof.
  intros Hinv. unfold after.
  destruct (invoke h c) as [h'|] eqn:Hc; [|assumption].
  apply invoke_Return in Hc as (Hsize & [(offset & bytes & Hoff & Hb)|(flag & Hb)]).
  - pose proof (header_inv_blit L h offset bytes Hoff Hinv) as H.
    destruct h' as [sz b]. cbn [FIXED_HEADER_SIZE buffer] in *. now subst.
  - pose proof (header_inv_flip_composed L h flag Hinv) as H.
    destruct h' as [sz b]. cbn [FIXED_HEADER_SIZE buffer] in *. now subst.
Qed.

Lemma header_inv_run (L : Z) (calls : list call) (h : HeaderObject) :
  header_inv L h -> header_inv L (run h calls).
Proof.
  revert h. induction calls as [|c calls IH]; intros h Hinv; [assumption|].
  cbn [run fold_left]. apply IH. now apply header_inv_after.
Qed.

Lemma with_length_length (et : jsstring) :
  47 + stringByteLength_string et <= 65535 ->
  Buffer.length (with_length et) = 47 + stringByteLength_string et.
Proof.
  intros H. pose proof (stringByteLength_string_lower et).
  unfold with_length. cbv zeta.
  rewrite length_nat, blit_length, set_0, blit_length, repeat_length. lia.
Qed.

Lemma with_length_inv (et : jsstring) :
  47 + stringByteLength_string et <= 65535 ->
  header_inv (47 + stringByteLength_string et)
    {| FIXED_HEADER_SIZE := 47; buffer := with_length et |}.
Proof.
  intros H. pose proof (stringByteLength_string_lower et) as Hlow.
  pose proof (with_length_length et H) as Hlen.
  unfold header_inv. cbn [FIXED_HEADER_SIZE buffer].
  split; [reflexivity|]. split; [assumption|]. split; [lia|]. split.
  - unfold with_length. cbv zeta.
    apply (blit_read_back _ 1 (Buffer.be_bytes 2 _)).
    rewrite be_bytes_length.
    rewrite set_0, blit_length, repeat_length. lia.
  - unfold with_length. cbv zeta.
    rewrite get_int_blit_outside by lia.
    rewrite get_int_set_0 by (rewrite repeat_length; lia).
    apply Z.mod_pos_bound. lia.
Qed.

(** The constructor establishes the invariant. *)
Lemma Header_new_inv (arguments : list value) (h : HeaderObject) :
  Header_new granularity arguments = Return h ->
  exists et,
    argument arguments 0 = VString et /\
    header_inv (47 + stringByteLength_string et) h.
Proof.
  intros H.
  apply Header_new_Return in H
    as (et & es & b2 & b4 & Het & Hes & Hargc & Hgt & Hmax & Hvalid & Hes12
        & Hw2 & Hw4 & ->).
  exists et. split; [assumption|].
  apply write_Return in Hw2 as (s2 & bytes2 & _ & _ & -> & _).
  apply write_Return in Hw4 as (s4 & bytes4 & _ & _ & -> & _).
  pose proof (with_length_inv et Hmax) as H0.
  apply (header_inv_blit _ _ (Z.to_nat 47) bytes2 ltac:(lia)) in H0.
  cbn [FIXED_HEADER_SIZE buffer] in H0.
  set (b2 := Buffer.blit (with_length et) (Z.to_nat 47) bytes2) in *.
  assert (H1 : header_inv (47 + stringByteLength_string et)
                 {| FIXED_HEADER_SIZE := 47;
                    buffer := Buffer.set b2 0
                      (Z.lor (Buffer.get_int b2 0)
                             (granularity_bits (argument arguments 1))) |}).
  { destruct H0 as (Hsize & Hlen & HL & Hfield & Hbyte).
    cbn [FIXED_HEADER_SIZE buffer] in *.
    unfold header_inv. cbn [FIXED_HEADER_SIZE buffer].
    split; [reflexivity|]. split; [|split; [assumption|split]].
    - rewrite set_0, length_nat, blit_length. exact Hlen.
    - rewrite set_0, blit_read_other by (cbn; lia). exact Hfield.
    - rewrite get_int_set_0.
      + apply Z.mod_pos_bound. lia.
      + rewrite length_nat in Hlen. lia. }
  apply (header_inv_blit _ _ (Z.to_nat 35) bytes4 ltac:(lia)) in H1.
  cbn [FIXED_HEADER_SIZE buffer] in H1.
  unfold composed_argument.
  destruct (argument arguments 3); try assumption.
  destruct (Z.of_nat (List.length arguments) =? 4); [|assumption].
  apply (header_inv_flip_composed _ _ b) in H1. exact H1.
Qed.

(** The constructor returns on every input that passes its checks: an event
    type (possibly empty) that does not read as a number above 65488 and
    whose length fits the 16-bit field, a member of the granularity module,
    and an event source of 12 bytes. *)
Lemma Header_new_returns (et es : jsstring) (tg : value) :
  gt (ToNumber (VString et)) (of_Z 65488) = false ->
  stringByteLength_string et <= 65488 ->
  validateEnumValue tg (members granularity) = true ->
  stringByteLength_string es = 12 ->
  exists h, Header_new granularity [VString et; tg; VString es] = Return h.
Proof.
  intros Hgt Hmax Hvalid Hes.
  pose proof (stringByteLength_string_lower et) as Hlow.
  unfold Header_new. cbv zeta.
  cbn [List.length argument nth is_type typeof type_name_eqb negb bind
       stringByteLength option_map differs].
  change (Z.of_nat 3) with 3. cbn [Z.ltb Z.compare Pos.compare Pos.compare_cont orb].
  unfold _FIXED_HEADER_SIZE. change (65535 - 47) with 65488. rewrite Hgt.
  unfold Buffer.new, Buffer.kMaxLength.
  replace ((47 + stringByteLength_string et <? 0)
           || (2 ^ 53 - 1 <? 47 + stringByteLength_string et)) with false by lia.
  cbn [bind].
  assert (Hlen : Buffer.length (Buffer.set (repeat 0 (Z.to_nat (47 + stringByteLength_string et))) 0 PROTOCOL_VERSION)
                 = 47 + stringByteLength_string et).
  { rewrite set_0, length_nat, blit_length, repeat_length. lia. }
  rewrite Hlen, writeUInt16BE_of_Z by lia.
  replace (65535 <? 47 + stringByteLength_string et) with false by lia.
  unfold Buffer.in_bounds. rewrite Hlen.
  replace ((0 <=? 1) && (1 + 2 <=? 47 + stringByteLength_string et)) with true by lia.
  cbn [bind]. unfold Buffer.write at 1.
  rewrite length_nat, blit_length, <- length_nat, Hlen.
  replace ((0 <=? 47) && (47 <=? 47 + stringByteLength_string et)) with true by lia.
  cbn [bind]. rewrite Hvalid. cbn [negb].
  rewrite Hes. cbn [Z.eqb Pos.eqb negb bind].
  unfold Buffer.write.
  rewrite set_0, length_nat, !blit_length, <- length_nat, Hlen.
  replace ((0 <=? 35) && (35 <=? 47 + stringByteLength_string et)) with true by lia.
  cbn [bind]. eexists. reflexivity.
Qed.

Lemma Header_inv (new : bool) (arguments : list value) (h : HeaderObject) :
  Header granularity new arguments = Return h ->
  exists et,
    argument arguments 0 = VString et /\
    header_inv (47 + stringByteLength_string et) h.
Proof.
  unfold Header. destruct new; cbn [negb]; intros H.
  - now apply Header_new_inv.
  - apply Header_new_inv in H as (et & Het & Hinv). now exists et.
Qed.

Lemma header_inv_getHeaderLength (L : Z) (h : HeaderObject) :
  header_inv L h -> getHeaderLength h = Return L.
Proof.
  intros (Hsize & Hlen & HL & Hfield & Hbyte).
  unfold getHeaderLength. apply readUInt16BE_field; [|lia|assumption].
  rewrite length_nat in Hlen. lia.
Qed.

End Invariant.

(** ** The first byte *)

Section FirstByte.

Lemma forall_bytes (P : Z -> bool) :
  forallb P (map Z.of_nat (seq 0 256)) = true ->
  forall x, 0 <= x < 256 -> P x = true.
Proof.
  intros H x Hx. rewrite forallb_forall in H. apply H.
  apply in_map_iff. exists (Z.to_nat x). split; [lia|].
  apply in_seq. lia.
Qed.

(** Toggling bit 3 of a byte: the byte stays a byte, bit 3 flips, the
    version bits and the granularity bits stay. *)
Lemma toggle_bit_3 (x : Z) :
  0 <= x < 256 ->
  Z.lxor x 8 mod 256 = Z.lxor x 8 /\
  Boolean (Z.land (Z.lxor x 8) 8) = negb (Boolean (Z.land x 8)) /\
  Z.land (Z.lxor x 8) 7 = Z.land x 7 /\
  Z.shiftr (Z.lxor x 8) 4 = Z.shiftr x 4.
Proof.
  intros Hx.
  pose proof (forall_bytes
    (fun x => (Z.lxor x 8 mod 256 =? Z.lxor x 8)
              && Bool.eqb (Boolean (Z.land (Z.lxor x 8) 8)) (negb (Boolean (Z.land x 8)))
              && (Z.land (Z.lxor x 8) 7 =? Z.land x 7)
              && (Z.shiftr (Z.lxor x 8) 4 =? Z.shiftr x 4))
    ltac:(vm_compute; reflexivity) x Hx) as H.
  cbv beta in H.
  apply andb_true_iff in H as [H H4]. apply andb_true_iff in H as [H H3].
  apply andb_true_iff in H as [H1 H2].
  apply Z.eqb_eq in H1, H3, H4. apply Bool.eqb_prop in H2.
  repeat split; assumption.
Qed.

Lemma testbit_toggle_bit_3 (x k : Z) :
  k <> 3 -> Z.testbit (Z.lxor x 8) k = Z.testbit x k.
Proof.
  intros Hk. rewrite Z.lxor_spec.
  destruct (Z.ltb_spec k 0) as [Hneg|Hpos].
  - now rewrite !Z.testbit_neg_r by lia.
  - change 8 with (2 ^ 3). rewrite Z.pow2_bits_eqb by lia.
    destruct (Z.eqb_spec 3 k); [lia|]. apply xorb_false_r.
Qed.

Lemma testbit_3 (x : Z) : Boolean (Z.land x 8) = Z.testbit x 3.
Proof.
  unfold Boolean.
  destruct (Z.testbit x 3) eqn:Hbit.
  - apply negb_true_iff. apply Z.eqb_neq. intros H0.
    apply (f_equal (fun z => Z.testbit z 3)) in H0.
    rewrite Z.land_spec, Hbit in H0. discriminate H0.
  - apply negb_false_iff. apply Z.eqb_eq. apply Z.bits_inj'. intros k Hk.
    rewrite Z.land_spec, Z.bits_0. change 8 with (2 ^ 3).
    rewrite Z.pow2_bits_eqb by lia.
    destruct (Z.eqb_spec 3 k) as [<-|]; [now rewrite Hbit|apply andb_false_r].
Qed.

(** The effect of [flip_composed] on a buffer with a first byte. *)
Lemma flip_composed_spec (b : Buffer.t) (flag : bool) :
  (0 < List.length b)%nat -> 0 <= Buffer.get_int b 0 < 256 ->
  let b' := flip_composed b flag in
  Boolean (Z.land (Buffer.get_int b' 0) 8) = flag /\
  Z.land (Buffer.get_int b' 0) 7 = Z.land (Buffer.get_int b 0) 7 /\
  Z.shiftr (Buffer.get_int b' 0) 4 = Z.shiftr (Buffer.get_int b 0) 4 /\
  (forall k, k <> 3 ->
     Z.testbit (Buffer.get_int b' 0) k = Z.testbit (Buffer.get_int b 0) k) /\
  (forall i, i <> 0 -> Buffer.get b' i = Buffer.get b i) /\
  List.length b' = List.length b.
Proof.
  intros Hlen Hbyte b'. subst b'. unfold flip_composed.
  destruct (toggle_bit_3 _ Hbyte) as (Hmod & Hbit & Hlow & Hhigh).
  destruct (Bool.eqb (negb (Boolean (Z.land (Buffer.get_int b 0) 8))) flag) eqn:E.
  - apply Bool.eqb_prop in E.
    rewrite get_int_set_0, Hmod by assumption.
    repeat split; try assumption.
    + now rewrite Hbit.
    + intros k Hk. now apply testbit_toggle_bit_3.
    + intros i Hi. rewrite set_0. apply get_blit_outside. cbn. lia.
    + rewrite set_0. apply blit_length.
  - repeat split; try reflexivity.
    destruct (Boolean (Z.land (Buffer.get_int b 0) 8)), flag;
      try reflexivity; discriminate E.
Qed.

Lemma flip_composed_idempotent (b : Buffer.t) (flag : bool) :
  (0 < List.length b)%nat -> 0 <= Buffer.get_int b 0 < 256 ->
  flip_composed (flip_composed b flag) flag = flip_composed b flag.
Proof.
  intros Hlen Hbyte.
  destruct (flip_composed_spec b flag Hlen Hbyte) as (Hflag & _).
  unfold flip_composed at 1. rewrite Hflag.
  now destruct flag.
Qed.

End FirstByte.

(* ================================================================== *)
(** * Part IV: the properties of the header *)
(* ================================================================== *)

Section HeaderLength.

Variable granularity : granularity_module.

Lemma reachable_inv (h : HeaderObject) :
  reachable granularity h -> exists L, header_inv L h.
Proof.
  intros (new & arguments & calls & h0 & Hnew & ->).
  apply Header_inv in Hnew as (et & _ & Hinv).
  eexists. apply header_inv_run. exact Hinv.
Qed.


End HeaderLength.


Lemma example_header_reachable : reachable example_granularity example_header.
Proof.
  exists true, example_arguments, [], example_header.
  split; vm_compute; reflexivity.
Defined.

Section Composed.

Variable granularity : granularity_module.

Lemma header_inv_first_byte (L : Z) (h : HeaderObject) :
  header_inv L h ->
  (0 < List.length (buffer h))%nat /\ 0 <= Buffer.get_int (buffer h) 0 < 256.
Proof.
  intros (_ & Hlen & HL & _ & Hbyte). rewrite length_nat in Hlen.
  split; [lia|assumption].
Qed.

(** C4.  [setComposed] throws for every argument that is not a boolean;
    for a boolean [flag] it returns, [isComposed] is then [flag], a second
    call with the same flag changes nothing, and only bit 3 of byte 0 can
    have changed: the protocol version, the granularity code, the other
    bits of byte 0, every other byte and the length are as before. *)
Theorem setComposed_changes_bit_3_only (h : HeaderObject) :
  reachable granularity h ->
  (forall v, typeof v <> TyBoolean ->
     setComposed h v = Throw (Error ComposedArgument)) /\
  (forall flag, exists h',
     setComposed h (VBoolean flag) = Return h' /\
     isComposed h' = flag /\
     setComposed h' (VBoolean flag) = Return h' /\
     getProtocolVersion h' = getProtocolVersion h /\
     getTemporalGranularity h' = getTemporalGranularity h /\
     (forall k, k <> 3 ->
        Z.testbit (Buffer.get_int (buffer h') 0) k
        = Z.testbit (Buffer.get_int (buffer h) 0) k) /\
     (forall i, i <> 0 -> Buffer.get (buffer h') i = Buffer.get (buffer h) i) /\
     Buffer.length (buffer h') = Buffer.length (buffer h) /\
     FIXED_HEADER_SIZE h' = FIXED_HEADER_SIZE h).
Proof.
  intros Hreach. apply reachable_inv in Hreach as (L & Hinv).
  apply header_inv_first_byte in Hinv as (Hlen & Hbyte).
  split.
  - intros v Hv. destruct v; try reflexivity. now contradiction Hv.
  - intros flag.
    destruct (flip_composed_spec (buffer h) flag Hlen Hbyte)
      as (Hflag & Hlow & Hhigh & Hbits & Hrest & Hlen').
    eexists. split; [reflexivity|].
    unfold isComposed, getProtocolVersion, getTemporalGranularity, setComposed.
    cbn [buffer FIXED_HEADER_SIZE].
    rewrite flip_composed_idempotent by assumption.
    rewrite !length_nat, Hlen'.
    repeat split; assumption.
Qed.

End Composed.

Lemma setComposed_changes_bit_3_only_witness :
  reachable example_granularity example_header /\
  (forall v, typeof v <> TyBoolean ->
     setComposed example_header v = Throw (Error ComposedArgument)) /\
  (forall flag, exists h',
     setComposed example_header (VBoolean flag) = Return h' /\
     isComposed h' = flag /\
     setComposed h' (VBoolean flag) = Return h' /\
     getProtocolVersion h' = getProtocolVersion example_header /\
     getTemporalGranularity h' = getTemporalGranularity example_header /\
     (forall k, k <> 3 ->
        Z.testbit (Buffer.get_int (buffer h') 0) k
        = Z.testbit (Buffer.get_int (buffer example_header) 0) k) /\
     (forall i, i <> 0 ->
        Buffer.get (buffer h') i = Buffer.get (buffer example_header) i) /\
     Buffer.length (buffer h') = Buffer.length (buffer example_header) /\
     FIXED_HEADER_SIZE h' = FIXED_HEADER_SIZE example_header).
Proof.
  split.
  - exact example_header_reachable.
  - apply (setComposed_changes_bit_3_only example_granularity).
    exact example_header_reachable.
Defined.

Section GranularityCode.

Variable granularity : granularity_module.

(** The first byte that the constructor writes for the code [c]. *)
Lemma granularity_bits_code (c : Z) :
  0 <= c <= 15 ->
  let x := Z.lor 1 (granularity_bits (VNumber (of_Z c))) mod 256 in
  Z.shiftr x 4 = c /\ Z.land x 7 = 1 /\ Boolean (Z.land x 8) = false /\
  0 <= x < 256.
Proof.
  intros Hc x. subst x.
  pose proof (forall_bytes
    (fun c => (15 <? c) ||
       let x := Z.lor 1 (granularity_bits (VNumber (of_Z c))) mod 256 in
       (Z.shiftr x 4 =? c) && (Z.land x 7 =? 1)
       && negb (Boolean (Z.land x 8)) && (0 <=? x) && (x <? 256))
    ltac:(vm_compute; reflexivity) c ltac:(lia)) as H.
  cbv beta zeta in H.
  destruct (Z.ltb_spec 15 c); [lia|]. cbn [orb] in H.
  repeat (apply andb_true_iff in H as [H ?]).
  repeat split; try lia. now apply negb_true_iff.
Qed.

Lemma Header_new_first_byte (arguments : list value) (h : HeaderObject) :
  Header_new granularity arguments = Return h ->
  exists b4,
    buffer h = composed_argument arguments b4 /\
    (0 < List.length b4)%nat /\
    Buffer.get_int b4 0
    = Z.lor 1 (granularity_bits (argument arguments 1)) mod 256.
Proof.
  intros H.
  apply Header_new_Return in H
    as (et & es & b2 & b4 & Het & Hes & Hargc & Hgt & Hmax & Hvalid & Hes12
        & Hw2 & Hw4 & ->).
  exists b4. split; [reflexivity|].
  apply write_Return in Hw2 as (s2 & bytes2 & _ & _ & -> & _).
  apply write_Return in Hw4 as (s4 & bytes4 & _ & _ & -> & _).
  pose proof (with_length_inv et Hmax) as (_ & Hlen & _ & _ & _).
  cbn [buffer] in Hlen. rewrite length_nat in Hlen.
  pose proof (stringByteLength_string_lower et) as Hlow.
  assert (H1 : Buffer.get_int (Buffer.blit (with_length et) (Z.to_nat 47) bytes2) 0 = 1).
  { rewrite get_int_blit_outside by lia.
    unfold with_length. cbv zeta. rewrite get_int_blit_outside by lia.
    rewrite get_int_set_0; [reflexivity|].
    rewrite repeat_length. pose proof (stringByteLength_string_lower et). lia. }
  rewrite H1. split.
  - rewrite blit_length, set_0, !blit_length. lia.
  - rewrite get_int_blit_outside by lia.
    apply get_int_set_0. rewrite blit_length. lia.
Qed.

Lemma first_byte_inv_flip (c : Z) (b : Buffer.t) (flag : bool) (sz : Z) :
  first_byte_inv c {| FIXED_HEADER_SIZE := sz; buffer := b |} ->
  first_byte_inv c {| FIXED_HEADER_SIZE := sz; buffer := flip_composed b flag |}.
Proof.
  unfold first_byte_inv. cbn [buffer]. intros (Hlen & Hbyte & Hcode & Hversion).
  destruct (flip_composed_spec b flag Hlen Hbyte) as (_ & Hlow & Hhigh & _ & _ & Hlen').
  rewrite Hlen', Hlow, Hhigh.
  repeat split; try assumption; now apply get_int_flip_composed.
Qed.

Lemma Header_first_byte (new : bool) (arguments : list value) (h : HeaderObject) (c : Z) :
  Header granularity new arguments = Return h ->
  argument arguments 1 = VNumber (of_Z c) -> 0 <= c <= 15 ->
  first_byte_inv c h.
Proof.
  intros Hnew Harg Hc.
  assert (H : exists args, Header_new granularity args = Return h /\
                           argument args 1 = VNumber (of_Z c)).
  { unfold Header in Hnew. destruct new; cbn [negb] in Hnew; eauto. }
  destruct H as (args & H & Harg').
  apply Header_new_first_byte in H as (b4 & Hb & Hlen & Hbyte).
  rewrite Harg' in Hbyte.
  destruct (granularity_bits_code c Hc) as (Hcode & Hversion & _ & Hrange).
  assert (H4 : first_byte_inv c {| FIXED_HEADER_SIZE := FIXED_HEADER_SIZE h; buffer := b4 |}).
  { unfold first_byte_inv. cbn [buffer]. rewrite Hbyte. repeat split; assumption || lia. }
  destruct h as [sz b]. cbn [buffer FIXED_HEADER_SIZE] in *. subst b.
  unfold composed_argument.
  destruct (argument args 3); try assumption.
  destruct (Z.of_nat (List.length args) =? 4); [|assumption].
  now apply first_byte_inv_flip.
Qed.

Lemma first_byte_inv_after (c : Z) (h : HeaderObject) (k : call) :
  first_byte_inv c h -> first_byte_inv c (after h k).
Proof.
  intros Hinv. unfold after.
  destruct (invoke h k) as [h'|] eqn:Hk; [|assumption].
  apply invoke_Return in Hk as (_ & [(offset & bytes & Hoff & Hb)|(flag & Hb)]).
  - destruct Hinv as (Hlen & Hbyte & Hcode & Hversion).
    unfold first_byte_inv. rewrite Hb, blit_length.
    rewrite get_int_blit_outside by lia. tauto.
  - destruct h as [sz b], h' as [sz' b']. cbn [buffer] in Hb. subst b'.
    apply (first_byte_inv_flip c b flag sz) in Hinv. exact Hinv.
Qed.

Lemma first_byte_inv_run (c : Z) (calls : list call) (h : HeaderObject) :
  first_byte_inv c h -> first_byte_inv c (run h calls).
Proof.
  revert h. induction calls as [|k calls IH]; intros h Hinv; [assumption|].
  cbn [run fold_left]. apply IH. now apply first_byte_inv_after.
Qed.

(** C9.  [getTemporalGranularityName] reads the code in the high four bits
    of byte 0 -- for a header built for the code [c], after any calls of
    the mutators, that is [c] -- and returns the name of
    [granularity.properties[c]]; when the table has no entry for the code
    the call throws (a [TypeError], for the read of [name] on
    [undefined]) and returns nothing. *)
Theorem getTemporalGranularityName_looks_up_code
    (new : bool) (arguments : list value) (h : HeaderObject)
    (calls : list call) (c : Z) :
  Header granularity new arguments = Return h ->
  argument arguments 1 = VNumber (of_Z c) -> 0 <= c <= 15 ->
  getTemporalGranularity (run h calls) = c /\
  getTemporalGranularityName granularity (run h calls) =
    match properties granularity c with
    | Some p => Return (name p)
    | None => Throw TypeError
    end /\
  (forall this : HeaderObject,
     properties granularity (Z.shiftr (Buffer.get_int (buffer this) 0) 4) = None ->
     getTemporalGranularityName granularity this = Throw TypeError).
Proof.
  intros Hnew Harg Hc.
  pose proof (Header_first_byte new arguments h c Hnew Harg Hc) as Hinv.
  apply (first_byte_inv_run c calls) in Hinv.
  destruct Hinv as (_ & _ & Hcode & _).
  unfold getTemporalGranularity, getTemporalGranularityName.
  rewrite Hcode. split; [reflexivity|]. split; [reflexivity|].
  intros this Hnone. now rewrite Hnone.
Qed.

End GranularityCode.

Lemma getTemporalGranularityName_looks_up_code_witness :
  Header example_granularity true example_arguments = Return example_header /\
  argument example_arguments 1 = VNumber (of_Z 2) /\ 0 <= 2 <= 15 /\
  getTemporalGranularity (run example_header example_calls) = 2 /\
  getTemporalGranularityName example_granularity (run example_header example_calls) =
    match properties example_granularity 2 with
    | Some p => Return (name p)
    | None => Throw TypeError
    end /\
  (forall this : HeaderObject,
     properties example_granularity (Z.shiftr (Buffer.get_int (buffer this) 0) 4) = None ->
     getTemporalGranularityName example_granularity this = Throw TypeError).
Proof.
  split; [vm_compute; reflexivity|].
  split; [reflexivity|].
  split; [lia|].
  apply (getTemporalGranularityName_looks_up_code example_granularity true
           example_arguments example_header example_calls 2).
  - vm_compute. reflexivity.
  - reflexivity.
  - lia.
Defined.

(** ** Fields written and read back *)

Section Fields.

Import Buffer.

Lemma in_bounds_47 (b : t) (offset width : Z) :
  47 <= length b -> 0 <= offset -> offset + width <= 47 ->
  in_bounds b offset width = true.
Proof. intros. unfold in_bounds. lia. Qed.

Lemma slice_field (b : t) (offset : Z) (width : nat) :
  0 <= offset ->
  slice b offset (offset + Z.of_nat width) = firstn width (skipn (Z.to_nat offset) b).
Proof.
  intros H. rewrite <- (Z2Nat.id offset) at 1 2 by assumption. apply slice_nat.
Qed.


Lemma readDoubleBE_blit (b : t) (offset : Z) (x : number) :
  in_bounds b offset 8 = true -> is_double x ->
  readDoubleBE (blit b (Z.to_nat offset) (be_bytes 8 (bits_of_double x))) offset
  = Return x.
Proof.
  intros Hb Hx. unfold readDoubleBE.
  assert (Hb' : in_bounds (blit b (Z.to_nat offset) (be_bytes 8 (bits_of_double x)))
                  offset 8 = true).
  { unfold in_bounds in *. rewrite length_nat, blit_length. exact Hb. }
  rewrite Hb'. unfold in_bounds in Hb. rewrite length_nat in Hb.
  change (offset + 8) with (offset + Z.of_nat 8).
  rewrite slice_field by lia.
  pose proof (blit_read_back b (Z.to_nat offset) (be_bytes 8 (bits_of_double x)))
    as Hread.
  rewrite be_bytes_length in Hread. rewrite Hread by lia.
  rewrite be_value_bytes_small by (apply bits_of_double_range; assumption).
  now rewrite double_of_bits_of_double.
Qed.


End Fields.

(** ** [setPayloadLength] *)

Section PayloadLength.

Variable granularity : granularity_module.

Lemma reachable_length (h : HeaderObject) :
  reachable granularity h -> 47 <= Buffer.length (buffer h).
Proof.
  intros Hreach. apply reachable_inv in Hreach as (L & _ & Hlen & HL & _). lia.
Qed.



End PayloadLength.



(** ** [setOccurrenceTime] and [setDetectionTime] *)

Section Times.

Variable granularity : granularity_module.

Lemma MAX_TIME_value : MAX_TIME = of_decimal false 2 63.
Proof. vm_compute. reflexivity. Qed.

Lemma write_time (b : Buffer.t) (t : number) (offset : Z) :
  47 <= Buffer.length b -> 0 <= offset -> offset + 8 <= 47 -> is_double t ->
  exists b',
    Buffer.writeDoubleBE b t offset = Return b' /\
    b' = Buffer.blit b (Z.to_nat offset) (Buffer.be_bytes 8 (Buffer.bits_of_double t)) /\
    Buffer.readDoubleBE b' offset = Return t /\
    (forall i, i < offset \/ offset + 8 <= i -> Buffer.get b' i = Buffer.get b i) /\
    Buffer.length b' = Buffer.length b.
Proof.
  intros Hlen Hoff Hfit Ht. unfold Buffer.writeDoubleBE.
  rewrite in_bounds_47 by assumption.
  eexists. split; [reflexivity|]. split; [reflexivity|]. split; [|split].
  - apply readDoubleBE_blit; [|assumption]. now apply in_bounds_47.
  - intros i Hi. apply get_blit_outside. rewrite be_bytes_length. lia.
  - now rewrite !length_nat, blit_length.
Qed.

(** C6, as the code has it.  The setters of the two times throw their own
    error for every argument that is not a number and for every number
    above [2E+63 - 1], which as a double is [2 * 10^63] (not [2^63 - 1]);
    for every other number [t] -- NaN included -- they return, the eight
    bytes at offset 7 (respectively 15) are the big-endian bits of [t], the
    matching getter returns [t], and no other byte has changed. *)
Theorem time_setters_check_type_and_maximum (h : HeaderObject) :
  reachable granularity h ->
  MAX_TIME = of_decimal false 2 63 /\
  (forall v, typeof v <> TyNumber ->
     setOccurrenceTime h v = Throw (Error OccurrenceTimeArgument) /\
     setDetectionTime h v = Throw (Error DetectionTimeArgument)) /\
  (forall t, gt t MAX_TIME = true ->
     setOccurrenceTime h (VNumber t) = Throw (Error OccurrenceTimeArgument) /\
     setDetectionTime h (VNumber t) = Throw (Error DetectionTimeArgument)) /\
  (forall t, is_double t -> gt t MAX_TIME = false ->
     (exists h',
        setOccurrenceTime h (VNumber t) = Return h' /\
        buffer h' = Buffer.blit (buffer h) 7
                      (Buffer.be_bytes 8 (Buffer.bits_of_double t)) /\
        getOccurrenceTime h' = Return t /\
        (forall i, i < 7 \/ 15 <= i ->
           Buffer.get (buffer h') i = Buffer.get (buffer h) i)) /\
     (exists h',
        setDetectionTime h (VNumber t) = Return h' /\
        buffer h' = Buffer.blit (buffer h) 15
                      (Buffer.be_bytes 8 (Buffer.bits_of_double t)) /\
        getDetectionTime h' = Return t /\
        (forall i, i < 15 \/ 23 <= i ->
           Buffer.get (buffer h') i = Buffer.get (buffer h) i))).
Proof.
  intros Hreach. apply reachable_length in Hreach as Hlen.
  split; [exact MAX_TIME_value|]. split; [|split].
  - intros v Hv. destruct v; try (split; reflexivity). now contradiction Hv.
  - intros t Ht. unfold setOccurrenceTime, setDetectionTime. now rewrite Ht.
  - intros t Hd Ht. unfold setOccurrenceTime, setDetectionTime,
      getOccurrenceTime, getDetectionTime. rewrite Ht. split.
    + destruct (write_time (buffer h) t 7 Hlen ltac:(lia) ltac:(lia) Hd)
        as (b' & -> & Hb & Hread & Hframe & _).
      cbn [bind]. eexists. split; [reflexivity|]. cbn [buffer].
      split; [exact Hb|]. split; [exact Hread|]. exact Hframe.
    + destruct (write_time (buffer h) t 15 Hlen ltac:(lia) ltac:(lia) Hd)
        as (b' & -> & Hb & Hread & Hframe & _).
      cbn [bind]. eexists. split; [reflexivity|]. cbn [buffer].
      split; [exact Hb|]. split; [exact Hread|]. exact Hframe.
Qed.

End Times.

Lemma time_setters_check_type_and_maximum_witness :
  reachable example_granularity example_header /\
  MAX_TIME = of_decimal false 2 63 /\
  (forall v, typeof v <> TyNumber ->
     setOccurrenceTime example_header v = Throw (Error OccurrenceTimeArgument) /\
     setDetectionTime example_header v = Throw (Error DetectionTimeArgument)) /\
  (forall t, gt t MAX_TIME = true ->
     setOccurrenceTime example_header (VNumber t) = Throw (Error OccurrenceTimeArgument) /\
     setDetectionTime example_header (VNumber t) = Throw (Error DetectionTimeArgument)) /\
  (forall t, is_double t -> gt t MAX_TIME = false ->
     (exists h',
        setOccurrenceTime example_header (VNumber t) = Return h' /\
        buffer h' = Buffer.blit (buffer example_header) 7
                      (Buffer.be_bytes 8 (Buffer.bits_of_double t)) /\
        getOccurrenceTime h' = Return t /\
        (forall i, i < 7 \/ 15 <= i ->
           Buffer.get (buffer h') i = Buffer.get (buffer example_header) i)) /\
     (exists h',
        setDetectionTime example_header (VNumber t) = Return h' /\
        buffer h' = Buffer.blit (buffer example_header) 15
                      (Buffer.be_bytes 8 (Buffer.bits_of_double t)) /\
        getDetectionTime h' = Return t /\
        (forall i, i < 15 \/ 23 <= i ->
           Buffer.get (buffer h') i = Buffer.get (buffer example_header) i))).
Proof.
  split.
  - exact example_header_reachable.
  - apply (time_setters_check_type_and_maximum example_granularity).
    exact example_header_reachable.
Defined.

(** C6 as stated fails: [1e19] is a number above [2^63 - 1], and both
    setters accept it. *)
Lemma time_setters_accept_1e19 :
  let t := of_decimal false 1 19 in
  gt t (of_Z (2 ^ 63 - 1)) = true /\
  (exists h', setOccurrenceTime example_header (VNumber t) = Return h' /\
              getOccurrenceTime h' = Return t) /\
  (exists h', setDetectionTime example_header (VNumber t) = Return h' /\
              getDetectionTime h' = Return t).
Proof.
  cbv zeta. split; [vm_compute; reflexivity|].
  split; eexists; (split; [vm_compute; reflexivity|vm_compute; reflexivity]).
Qed.

(** ** Text fields *)

Section TextFields.

Variable granularity : granularity_module.

Lemma toString_field (b : Buffer.t) (offset : Z) (width : nat) :
  0 <= offset -> offset + Z.of_nat width <= Buffer.length b ->
  Buffer.toString b offset (offset + Z.of_nat width)
  = Utf8.decode (firstn width (skipn (Z.to_nat offset) b)).
Proof.
  intros Hoff Hfit. unfold Buffer.toString.
  rewrite Z.min_l by assumption. now rewrite slice_field.
Qed.

(** Writing a well-formed string that fits, and reading it back. *)
Lemma write_well_formed (b : Buffer.t) (s : jsstring) (offset : Z) :
  Utf8.well_formed s = true -> 0 <= offset ->
  offset + Z.of_nat (List.length (Utf8.encode s)) <= Buffer.length b ->
  Buffer.write b (VString s) offset
    = Return (Buffer.blit b (Z.to_nat offset) (Utf8.encode s)) /\
  Buffer.toString (Buffer.blit b (Z.to_nat offset) (Utf8.encode s))
    offset (offset + Z.of_nat (List.length (Utf8.encode s))) = s.
Proof.
  intros Hwf Hoff Hfit. rewrite length_nat in Hfit. split.
  - unfold Buffer.write. rewrite length_nat.
    replace ((0 <=? offset) && (offset <=? Z.of_nat (List.length b))) with true by lia.
    rewrite fit_encode by lia. reflexivity.
  - rewrite toString_field; [|assumption|rewrite length_nat, blit_length; assumption].
    rewrite blit_read_back by lia. now apply decode_encode.
Qed.

(** C7, as the code has it.  [setEventId] throws for every argument that
    is not a string and for every string whose [stringByteLength] is not
    12; for every well-formed string whose UTF-8 encoding has 12 bytes it
    returns, the bytes at offsets 23 to 34 are that encoding, [getEventId]
    then returns the string, and the bytes outside that range -- the event
    source among them -- and the length are as before. *)
Theorem setEventId_writes_twelve_bytes (h : HeaderObject) :
  reachable granularity h ->
  (forall v, typeof v <> TyString -> throws (setEventId h v)) /\
  (forall s, stringByteLength_string s <> 12 ->
     setEventId h (VString s) = Throw (Error EventIdArgument)) /\
  (forall s, Utf8.well_formed s = true -> List.length (Utf8.encode s) = 12%nat ->
     exists h',
       setEventId h (VString s) = Return h' /\
       Buffer.slice (buffer h') 23 35 = Utf8.encode s /\
       getEventId h' = s /\
       (forall i, i < 23 \/ 35 <= i ->
          Buffer.get (buffer h') i = Buffer.get (buffer h) i) /\
       getEventSource h' = getEventSource h /\
       Buffer.length (buffer h') = Buffer.length (buffer h)).
Proof.
  intros Hreach. apply reachable_length in Hreach as Hlen.
  split; [|split].
  - intros v Hv. unfold setEventId.
    destruct v; cbn; try (eexists; reflexivity). now contradiction Hv.
  - intros s Hs. unfold setEventId.
    cbn [is_type typeof type_name_eqb negb bind stringByteLength differs].
    destruct (Z.eqb_spec (stringByteLength_string s) 12); [contradiction|].
    reflexivity.
  - intros s Hwf Hsize.
    pose proof (stringByteLength_string_encode s Hwf) as Hsbl.
    rewrite Hsize in Hsbl.
    destruct (write_well_formed (buffer h) s 23 Hwf ltac:(lia)) as (Hwrite & Hread).
    { rewrite Hsize. lia. }
    rewrite Hsize in Hread. change (23 + Z.of_nat 12) with 35 in Hread.
    unfold setEventId.
    cbn [is_type typeof type_name_eqb negb bind stringByteLength differs].
    rewrite Hsbl, Hwrite. cbn [Z.eqb Pos.eqb negb bind].
    eexists. split; [reflexivity|]. cbn [buffer].
    unfold getEventId, getEventSource. cbn [buffer].
    split; [|split; [exact Hread|split; [|split]]].
    + change 35 with (23 + Z.of_nat 12). rewrite slice_field by lia.
      rewrite <- Hsize at 1. apply blit_read_back.
      rewrite length_nat in Hlen. lia.
    + intros i Hi. apply get_blit_outside. rewrite Hsize. lia.
    + change 47 with (35 + Z.of_nat 12).
      rewrite !toString_field; try lia.
      * rewrite blit_read_other; [reflexivity|]. rewrite Hsize. lia.
      * rewrite length_nat, blit_length. rewrite length_nat in Hlen. lia.
    + now rewrite !length_nat, blit_length.
Qed.

End TextFields.

Lemma setEventId_writes_twelve_bytes_witness :
  reachable example_granularity example_header /\
  (forall v, typeof v <> TyString -> throws (setEventId example_header v)) /\
  (forall s, stringByteLength_string s <> 12 ->
     setEventId example_header (VString s) = Throw (Error EventIdArgument)) /\
  (forall s, Utf8.well_formed s = true -> List.length (Utf8.encode s) = 12%nat ->
     exists h',
       setEventId example_header (VString s) = Return h' /\
       Buffer.slice (buffer h') 23 35 = Utf8.encode s /\
       getEventId h' = s /\
       (forall i, i < 23 \/ 35 <= i ->
          Buffer.get (buffer h') i = Buffer.get (buffer example_header) i) /\
       getEventSource h' = getEventSource example_header /\
       Buffer.length (buffer h') = Buffer.length (buffer example_header)).
Proof.
  split.
  - exact example_header_reachable.
  - apply (setEventId_writes_twelve_bytes example_granularity).
    exact example_header_reachable.
Defined.

(** C7 as stated fails.  [lone_surrogate_id] is a string of byte length 12
    and [setEventId] accepts it, but [getEventId] then returns the string
    with U+FFFD in place of the surrogate.  [overlong_id] encodes to 13
    bytes, [setEventId] accepts it all the same (its [stringByteLength] is
    12), and the thirteenth byte replaces the first byte of the event
    source. *)
Lemma setEventId_does_not_round_trip_a_lone_surrogate :
  (stringByteLength_string lone_surrogate_id = 12 /\
   List.length (Utf8.encode lone_surrogate_id) = 12%nat /\
   exists h',
     setEventId example_header (VString lone_surrogate_id) = Return h' /\
     getEventId h' = 0xFFFD :: lit "abcdefghi" /\
     getEventId h' <> lone_surrogate_id) /\
  (List.length (Utf8.encode overlong_id) = 13%nat /\
   exists h',
     setEventId example_header (VString overlong_id) = Return h' /\
     getEventSource example_header = lit "abcd-12345yz" /\
     getEventSource h' = lit "hbcd-12345yz").
Proof.
  split.
  - split; [vm_compute; reflexivity|]. split; [vm_compute; reflexivity|].
    eexists. split; [vm_compute; reflexivity|].
    split; [vm_compute; reflexivity|]. vm_compute. discriminate.
  - split; [vm_compute; reflexivity|].
    eexists. split; [vm_compute; reflexivity|].
    split; vm_compute; reflexivity.
Qed.

(** ** The three-argument construction *)

Section Construction.

Variable granularity : granularity_module.

(** C3, as the code has it.  For a successful three-argument construction
    with a code [c] of the four-bit range and an event type and an event
    source that are well-formed UTF-16 (no surrogate outside a lead/trail
    pair), the accessors give back what was passed: version 1, not
    composed, the code [c], the event type and the event source. *)
Theorem three_argument_construction_round_trips
    (eventType eventSource : jsstring) (c : Z) (h : HeaderObject) :
  Header granularity true
    [VString eventType; VNumber (of_Z c); VString eventSource] = Return h ->
  0 <= c <= 15 ->
  Utf8.well_formed eventType = true ->
  Utf8.well_formed eventSource = true ->
  getProtocolVersion h = 1 /\
  isComposed h = false /\
  getTemporalGranularity h = c /\
  getEventType h = Return eventType /\
  getEventSource h = eventSource.
Proof.
  intros Hnew Hc Hwt Hws.
  pose proof (Header_first_byte granularity true _ h c Hnew eq_refl Hc)
    as (_ & _ & Hcode & Hversion).
  pose proof (Header_inv granularity true _ h Hnew) as (et' & Het' & Hinv).
  cbn [argument nth] in Het'. apply (f_equal (fun v => match v with VString s => s | _ => [] end)) in Het'.
  subst et'.
  pose proof (header_inv_getHeaderLength _ _ Hinv) as Hlength.
  destruct Hinv as (Hsize & Hlen & HL & _ & _).
  unfold Header in Hnew. cbn [negb] in Hnew.
  pose proof (Header_new_first_byte granularity _ h Hnew) as (b4' & Hb4' & _ & Hbyte).
  apply Header_new_Return in Hnew
    as (et & es & b2 & b4 & Het & Hes & Hargc & Hgt & Hmax & Hvalid & Hes12
        & Hw2 & Hw4 & Hh).
  cbn [argument nth] in Het, Hes, Hbyte.
  apply (f_equal (fun v => match v with VString s => s | _ => [] end)) in Het, Hes.
  subst et es.
  unfold composed_argument in Hh, Hb4'. cbn [argument nth] in Hh, Hb4'.
  pose proof (stringByteLength_string_encode eventType Hwt) as Hte.
  pose proof (stringByteLength_string_encode eventSource Hws) as Hse.
  pose proof (with_length_length eventType Hmax) as Hwl.
  destruct (write_well_formed (with_length eventType) eventType 47 Hwt ltac:(lia))
    as (Hw2' & _); [lia|].
  rewrite Hw2' in Hw2. apply Return_inj in Hw2. subst b2.
  set (b2 := Buffer.blit (with_length eventType) (Z.to_nat 47) (Utf8.encode eventType)) in *.
  set (b3 := Buffer.set b2 0 _) in *.
  assert (Hb3 : Buffer.length b3 = 47 + stringByteLength_string eventType).
  { unfold b3, b2. rewrite set_0, length_nat, !blit_length, <- length_nat. exact Hwl. }
  destruct (write_well_formed b3 eventSource 35 Hws ltac:(lia)) as (Hw4' & Hread4).
  { pose proof (stringByteLength_string_lower eventType). lia. }
  rewrite Hw4' in Hw4. apply Return_inj in Hw4. subst b4.
  replace (35 + Z.of_nat (List.length (Utf8.encode eventSource))) with 47 in Hread4 by lia.
  subst h. cbn [buffer] in *. subst b4'.
  unfold getProtocolVersion, isComposed, getTemporalGranularity, getEventType,
    getEventSource. cbn [buffer FIXED_HEADER_SIZE].
  rewrite Hlength. cbn [bind].
  split; [exact Hversion|]. split; [|split; [exact Hcode|split; [|exact Hread4]]].
  - rewrite Hbyte. apply (granularity_bits_code c Hc).
  - f_equal. rewrite Hte. rewrite length_nat in Hb3.
    rewrite toString_field; [|lia|rewrite length_nat, blit_length; lia].
    rewrite blit_read_other by lia.
    unfold b3. rewrite set_0, blit_read_other by (cbn; lia).
    unfold b2. rewrite blit_read_back.
    + now apply decode_encode.
    + rewrite length_nat in Hwl. lia.
Qed.

End Construction.

Lemma three_argument_construction_round_trips_witness :
  Header example_granularity true
    [VString (lit "testEventType"); VNumber (of_Z 2); VString (lit "abcd-12345yz")]
  = Return example_header /\
  0 <= 2 <= 15 /\
  Utf8.well_formed (lit "testEventType") = true /\
  Utf8.well_formed (lit "abcd-12345yz") = true /\
  getProtocolVersion example_header = 1 /\
  isComposed example_header = false /\
  getTemporalGranularity example_header = 2 /\
  getEventType example_header = Return (lit "testEventType") /\
  getEventSource example_header = lit "abcd-12345yz".
Proof.
  split; [vm_compute; reflexivity|].
  split; [lia|].
  split; [vm_compute; reflexivity|].
  split; [vm_compute; reflexivity|].
  apply (three_argument_construction_round_trips example_granularity
           (lit "testEventType") (lit "abcd-12345yz") 2 example_header).
  - vm_compute. reflexivity.
  - lia.
  - vm_compute. reflexivity.
  - vm_compute. reflexivity.
Defined.

(** C3 as stated fails: the event type made of one lone lead surrogate is
    accepted (with a valid code and a 12-byte event source), and
    [getEventType] returns U+FFFD instead. *)
Lemma getEventType_does_not_round_trip_a_lone_surrogate :
  exists h,
    Header example_granularity true
      [VString [0xD800]; VNumber (of_Z 2); VString (lit "abcd-12345yz")] = Return h /\
    getEventType h = Return [0xFFFD] /\
    getEventType h <> Return [0xD800].
Proof.
  eexists. split; [vm_compute; reflexivity|].
  split; [vm_compute; reflexivity|]. vm_compute. discriminate.
Qed.

(** ** [stringByteLength] and UTF-8 *)

(** C8, as the code has it.  For every well-formed UTF-16 string,
    [stringByteLength] is the number of bytes of the UTF-8 encoding (with
    any fuel from the length of the string on); the empty string gives 0;
    an encoded code point takes 1, 2, 3 or 4 bytes by its range, 4 for the
    code point of a surrogate pair. *)
Theorem stringByteLength_is_utf8_length (str : jsstring) :
  Utf8.well_formed str = true ->
  stringByteLength_string str = Z.of_nat (List.length (Utf8.encode str)) /\
  stringByteLength (VString str)
    = Return (Some (Z.of_nat (List.length (Utf8.encode str)))) /\
  (forall fuel, (List.length str <= fuel)%nat ->
     stringByteLength_loop fuel str (Z.of_nat (List.length str) - 1)
       (Z.of_nat (List.length str))
     = Z.of_nat (List.length (Utf8.encode str))) /\
  stringByteLength_string [] = 0 /\
  (forall cp,
     Z.of_nat (List.length (Utf8.encode_code_point cp)) =
       if cp <? 0x80 then 1 else if cp <? 0x800 then 2
       else if cp <? 0x10000 then 3 else 4) /\
  (forall hi lo, Utf8.is_lead hi = true -> Utf8.is_trail lo = true ->
     stringByteLength_string [hi; lo] = 4).
Proof.
  intros Hwf.
  pose proof (stringByteLength_string_encode str Hwf) as H.
  split; [exact H|]. split; [cbn [stringByteLength]; now rewrite H|].
  split; [|split; [reflexivity|split; [exact encode_code_point_length|]]].
  - intros fuel Hfuel. rewrite <- H. unfold stringByteLength_string.
    apply stringByteLength_loop_fuel; lia.
  - intros hi lo Hhi Hlo.
    rewrite stringByteLength_string_encode.
    + rewrite encode_pair, encode_code_point_length by assumption.
      unfold Utf8.pair_code_point, Utf8.is_lead, Utf8.is_trail in *.
      destruct (Z.ltb_spec (0x10000 + (hi - 0xD800) * 1024 + (lo - 0xDC00)) 0x80),
               (Z.ltb_spec (0x10000 + (hi - 0xD800) * 1024 + (lo - 0xDC00)) 0x800),
               (Z.ltb_spec (0x10000 + (hi - 0xD800) * 1024 + (lo - 0xDC00)) 0x10000);
        lia.
    + cbn [Utf8.well_formed]. now rewrite Hhi, Hlo.
Qed.

Lemma stringByteLength_is_utf8_length_witness :
  Utf8.well_formed example_text = true /\
  stringByteLength_string example_text
  = Z.of_nat (List.length (Utf8.encode example_text)) /\
  stringByteLength_string example_text = 12.
Proof.
  split; [vm_compute; reflexivity|]. split.
  - exact (proj1 (stringByteLength_is_utf8_length example_text
                    ltac:(vm_compute; reflexivity))).
  - vm_compute. reflexivity.
Defined.

(** C8 as stated fails: for the string of U+00E9 followed by a lone trail
    surrogate the function returns 4, while the two code units contribute 2
    and 3 bytes (the encoding has 5 bytes): the trail surrogate makes the
    loop skip the unit before it, which here is not a lead surrogate. *)
Lemma stringByteLength_skips_before_a_lone_trail_surrogate :
  stringByteLength_string [0xE9; 0xDC00] = 4 /\
  Utf8.encode [0xE9; 0xDC00] = [0xC3; 0xA9; 0xEF; 0xBF; 0xBD] /\
  stringByteLength_string [0xE9; 0xDC00]
  <> Z.of_nat (List.length (Utf8.encode [0xE9; 0xDC00])).
Proof.
  split; [vm_compute; reflexivity|]. split; [vm_compute; reflexivity|].
  vm_compute. discriminate.
Qed.

(** ** What the argument checks of the constructor miss *)

(** C2: the check of [eventType] does not do what the documentation of the
    constructor says.  The empty string is accepted: the construction
    returns a header of 47 bytes whose event type is empty.  A string that
    reads as a number above 65488, such as ["70000"], is refused although
    it has five bytes. *)
Theorem eventType_check_accepts_the_empty_string :
  (exists h,
     Header example_granularity true
       [VString []; VNumber (of_Z 2); VString (lit "abcd-12345yz")] = Return h /\
     Buffer.length (buffer h) = 47 /\
     getEventType h = Return []) /\
  Header example_granularity true
    [VString (lit "70000"); VNumber (of_Z 2); VString (lit "abcd-12345yz")]
  = Throw (Error EventTypeArgument).
Proof.
  split.
  - eexists. split; [vm_compute; reflexivity|].
    split; vm_compute; reflexivity.
  - vm_compute. reflexivity.
Qed.

(** C10: a plain call passes its four parameters to [new Header], so the
    number of arguments of the call is lost.  With five arguments
    [new Header (...)] throws, and the plain call returns a header. *)
Theorem plain_call_loses_the_argument_count :
  let arguments :=
    [VString (lit "testEventType"); VNumber (of_Z 2);
     VString (lit "abcd-12345yz"); VBoolean true; VString (lit "extra")] in
  Header example_granularity true arguments = Throw (Error ArgumentCount) /\
  (exists h, Header example_granularity false arguments = Return h /\
             isComposed h = true) /\
  Header example_granularity true [] = Throw (Error ArgumentCount) /\
  Header example_granularity false [] = Throw TypeError.
Proof.
  cbv zeta. split; [vm_compute; reflexivity|]. split.
  - eexists. split; [vm_compute; reflexivity|]. vm_compute. reflexivity.
  - split; vm_compute; reflexivity.
Qed.

(* ================================================================== *)
(** * Part V: further properties of the code *)
(* ================================================================== *)

(** ** [validateEnumValue] *)

Section ValidateEnumValue.






End ValidateEnumValue.


(** ** [stringByteLength]: bounds, ASCII, concatenation *)

Section StringByteLengthMore.

Import Utf8.

Lemma stringByteLength_loop_upper (fuel : nat) (str : jsstring) (i s : Z) :
  stringByteLength_loop fuel str i s <= s + 2 * Z.max 0 (i + 1).
Proof.
  revert i s. induction fuel as [|fuel IH]; intros i s; cbn [stringByteLength_loop].
  - lia.
  - destruct (Z.leb_spec 0 i); [|lia].
    etransitivity; [apply IH|].
    destruct ((0xDC00 <=? charCodeAt str i) && (charCodeAt str i <=? 0xDFFF));
      (destruct (_ && _); [lia|]; destruct (_ && _); lia).
Qed.

(** X3.  For every string, [stringByteLength] is at least the number of
    code units and at most three times that number. *)
Theorem stringByteLength_bounds (str : jsstring) :
  Z.of_nat (List.length str) <= stringByteLength_string str
  <= 3 * Z.of_nat (List.length str).
Proof.
  split; [apply stringByteLength_string_lower|].
  unfold stringByteLength_string.
  etransitivity; [apply stringByteLength_loop_upper|]. lia.
Qed.

Lemma stringByteLength_loop_ascii (fuel : nat) (str : jsstring) (i s : Z) :
  Forall (fun c => c <= 0x7f) str -> i < Z.of_nat (List.length str) ->
  stringByteLength_loop fuel str i s = s.
Proof.
  intros Hascii. revert i s.
  induction fuel as [|fuel IH]; intros i s Hi; cbn [stringByteLength_loop]; [reflexivity|].
  destruct (Z.leb_spec 0 i); [|reflexivity].
  assert (Hc : charCodeAt str i <= 0x7f).
  { rewrite Forall_forall in Hascii. apply Hascii.
    unfold charCodeAt. apply nth_In. lia. }
  replace ((0x7f <? charCodeAt str i) && (charCodeAt str i <=? 0x7ff)) with false by lia.
  replace ((0x7ff <? charCodeAt str i) && (charCodeAt str i <=? 0xffff)) with false by lia.
  replace ((0xDC00 <=? charCodeAt str i) && (charCodeAt str i <=? 0xDFFF)) with false by lia.
  apply IH. lia.
Qed.

(** X4.  For a string of ASCII characters (every code unit at most 0x7F)
    the byte length is the number of characters. *)
Theorem stringByteLength_ascii (str : jsstring) :
  Forall (fun c => c <= 0x7f) str ->
  stringByteLength_string str = Z.of_nat (List.length str).
Proof.
  intros Hascii. unfold stringByteLength_string.
  apply stringByteLength_loop_ascii; [assumption|lia].
Qed.

Lemma paired_app (s t : jsstring) : paired s -> paired t -> paired (s ++ t).
Proof.
  intros Hs Ht. induction Ht as [|t c Ht IH Hc Hcr|t hi lo Ht IH Hhi Hlo].
  - now rewrite app_nil_r.
  - rewrite app_assoc. now constructor.
  - rewrite app_assoc. now constructor.
Qed.

Lemma stringByteLength_string_paired (str : jsstring) :
  paired str -> stringByteLength_string str = Z.of_nat (List.length (encode str)).
Proof.
  intros Hp. unfold stringByteLength_string.
  pose proof (stringByteLength_loop_paired str Hp [] (List.length str)
                (Z.of_nat (List.length str))) as H.
  rewrite app_nil_r in H. rewrite H by lia. lia.
Qed.

(** X5.  On well-formed strings the byte length of a concatenation is the
    sum of the byte lengths. *)
Theorem stringByteLength_app (s t : jsstring) :
  well_formed s = true -> well_formed t = true ->
  stringByteLength_string (s ++ t)
  = stringByteLength_string s + stringByteLength_string t.
Proof.
  intros Hs Ht. apply well_formed_paired in Hs, Ht.
  rewrite !stringByteLength_string_paired by (assumption || now apply paired_app).
  rewrite encode_app by assumption. rewrite length_app. lia.
Qed.

End StringByteLengthMore.

Lemma stringByteLength_ascii_witness :
  Forall (fun c => c <= 0x7f) (lit "abcd-12345yz") /\
  stringByteLength_string (lit "abcd-12345yz")
  = Z.of_nat (List.length (lit "abcd-12345yz")).
Proof.
  assert (H : Forall (fun c => c <= 0x7f) (lit "abcd-12345yz")).
  { repeat constructor; cbn; lia. }
  split; [exact H|].
  exact (stringByteLength_ascii (lit "abcd-12345yz") H).
Defined.

Lemma stringByteLength_app_witness :
  Utf8.well_formed example_text = true /\
  Utf8.well_formed (lit "abcd-12345yz") = true /\
  stringByteLength_string (example_text ++ lit "abcd-12345yz")
  = stringByteLength_string example_text
    + stringByteLength_string (lit "abcd-12345yz").
Proof.
  split; [vm_compute; reflexivity|]. split; [vm_compute; reflexivity|].
  apply (stringByteLength_app example_text (lit "abcd-12345yz"));
    vm_compute; reflexivity.
Defined.

(** ** The constructor: when it returns and what it throws *)

Section ConstructorOutcome.

Variable granularity : granularity_module.

(** X6.  With a string event type, a granularity argument and a string event
    source, [new Header] returns exactly when the event type does not read
    as a number above 65488, its byte length is at most 65488, the
    granularity argument is a member of the granularity module and the byte
    length of the event source is 12. *)
Theorem Header_returns_iff (eventType eventSource : jsstring) (temporalGranularity : value) :
  (exists h,
     Header granularity true
       [VString eventType; temporalGranularity; VString eventSource] = Return h)
  <->
  gt (ToNumber (VString eventType)) (of_Z 65488) = false /\
  stringByteLength_string eventType <= 65488 /\
  validateEnumValue temporalGranularity (members granularity) = true /\
  stringByteLength_string eventSource = 12.
Proof.
  unfold Header. cbn [negb]. split.
  - intros (h & H).
    apply Header_new_Return in H
      as (et & es & b2 & b4 & Het & Hes & _ & Hgt & Hmax & Hvalid & Hes12 & _).
    cbn [argument nth] in Het, Hes, Hvalid.
    apply (f_equal (fun v => match v with VString s => s | _ => [] end)) in Het, Hes.
    subst et es. repeat split; try assumption. lia.
  - intros (Hgt & Hmax & Hvalid & Hes). now apply Header_new_returns.
Qed.

(** X7.  Whatever the arguments and the form of the call, a header is
    returned only if the first and the third argument are strings, the
    second is a member of the granularity module, the event source has byte
    length 12 and the header length fits in 16 bits; with [new], only if
    three or four arguments were passed. *)
Theorem Header_returns_only_on_valid_arguments
    (new : bool) (arguments : list value) (h : HeaderObject) :
  Header granularity new arguments = Return h ->
  exists eventType eventSource,
    argument arguments 0 = VString eventType /\
    argument arguments 2 = VString eventSource /\
    validateEnumValue (argument arguments 1) (members granularity) = true /\
    stringByteLength_string eventSource = 12 /\
    47 + stringByteLength_string eventType <= 65535 /\
    (new = true -> (3 <= List.length arguments <= 4)%nat).
Proof.
  unfold Header. destruct new; cbn [negb]; intros H;
    apply Header_new_Return in H
      as (et & es & b2 & b4 & Het & Hes & Hargc & Hgt & Hmax & Hvalid & Hes12 & _);
    exists et, es; cbn [argument nth] in *; repeat split; try assumption; try lia;
    discriminate.
Qed.

(** The steps of [Header_new] on a string event type that passes the first
    check, up to the check of the granularity argument. *)
Lemma Header_new_after_eventType (et : jsstring) (tg es : value) (rest : list value) :
  (List.length rest <= 1)%nat ->
  gt (ToNumber (VString et)) (of_Z 65488) = false ->
  stringByteLength_string et <= 65488 ->
  exists b2,
    (0 < List.length b2)%nat /\
    Header_new granularity (VString et :: tg :: es :: rest) =
      if negb (validateEnumValue tg (members granularity))
      then Throw (Error GranularityArgument) else
      bad <- (if negb (is_type es TyString) then Return true
              else n <- stringByteLength es ;; Return (differs n 12)) ;;
      if bad then stringByteLength es ;;; Throw (Error EventSourceArgument)
      else
      b4 <- Buffer.write
              (Buffer.set b2 0 (Z.lor (Buffer.get_int b2 0) (granularity_bits tg)))
              es 35 ;;
      Return {| FIXED_HEADER_SIZE := 47;
                buffer := composed_argument (VString et :: tg :: es :: rest) b4 |}.
Proof.
  intros Hrest Hgt Hmax.
  pose proof (stringByteLength_string_lower et) as Hlow.
  unfold Header_new. cbv zeta.
  cbn [argument nth is_type typeof type_name_eqb negb bind
       stringByteLength option_map].
  replace ((Z.of_nat (List.length (VString et :: tg :: es :: rest)) <? 3)
           || (4 <? Z.of_nat (List.length (VString et :: tg :: es :: rest))))
    with false
      by (replace (Z.of_nat (List.length (VString et :: tg :: es :: rest)))
            with (3 + Z.of_nat (List.length rest)) by (cbn [List.length]; lia); lia).
  unfold _FIXED_HEADER_SIZE. change (65535 - 47) with 65488. rewrite Hgt.
  cbn [orb]. unfold Buffer.new, Buffer.kMaxLength.
  replace ((47 + stringByteLength_string et <? 0)
           || (2 ^ 53 - 1 <? 47 + stringByteLength_string et)) with false by lia.
  cbn [bind].
  assert (Hlen : Buffer.length (Buffer.set (repeat 0 (Z.to_nat (47 + stringByteLength_string et))) 0 PROTOCOL_VERSION)
                 = 47 + stringByteLength_string et).
  { rewrite set_0, length_nat, blit_length, repeat_length. lia. }
  rewrite Hlen, writeUInt16BE_of_Z by lia.
  replace (65535 <? 47 + stringByteLength_string et) with false by lia.
  unfold Buffer.in_bounds. rewrite Hlen.
  replace ((0 <=? 1) && (1 + 2 <=? 47 + stringByteLength_string et)) with true by lia.
  cbn [bind]. unfold Buffer.write at 1.
  rewrite length_nat, blit_length, <- length_nat, Hlen.
  replace ((0 <=? 47) && (47 <=? 47 + stringByteLength_string et)) with true by lia.
  cbn [bind]. eexists. split; [|reflexivity].
  rewrite !blit_length, set_0, blit_length, repeat_length. lia.
Qed.

(** X8.  The checks of the constructor come in the order of the source, and
    each has its own failure.  For a string event type and three or four
    arguments: an event type that reads as a number above 65488 throws the
    event-type error; otherwise one of more than 65488 bytes throws a
    [RangeError] (the header length does not fit in 16 bits); otherwise a
    granularity argument that is not a member throws the granularity error,
    whatever the event source is; otherwise an event source that is
    [undefined] or [null] throws a [TypeError], and one that is a boolean, a
    number or a string whose byte length is not 12 throws the event-source
    error. *)
Theorem Header_checks_in_order
    (eventType : jsstring) (temporalGranularity eventSource : value) (rest : list value) :
  (List.length rest <= 1)%nat ->
  let arguments := VString eventType :: temporalGranularity :: eventSource :: rest in
  let numeric := gt (ToNumber (VString eventType)) (of_Z 65488) in
  let valid := validateEnumValue temporalGranularity (members granularity) in
  (numeric = true ->
   Header granularity true arguments = Throw (Error EventTypeArgument)) /\
  (numeric = false -> 65488 < stringByteLength_string eventType ->
   Header granularity true arguments = Throw RangeError) /\
  (numeric = false -> stringByteLength_string eventType <= 65488 ->
   (valid = false ->
    Header granularity true arguments = Throw (Error GranularityArgument)) /\
   (valid = true ->
    match eventSource with
    | VUndefined | VNull =>
        Header granularity true arguments = Throw TypeError
    | VBoolean _ | VNumber _ =>
        Header granularity true arguments = Throw (Error EventSourceArgument)
    | VString s =>
        stringByteLength_string s <> 12 ->
        Header granularity true arguments = Throw (Error EventSourceArgument)
    end)).
Proof.
  intros Hrest arguments numeric valid. subst arguments numeric valid.
  unfold Header. cbn [negb].
  split; [|split].
  - intros Hgt. unfold Header_new. cbv zeta.
    cbn [argument nth is_type typeof type_name_eqb negb bind].
    replace ((Z.of_nat (List.length (VString eventType :: temporalGranularity :: eventSource :: rest)) <? 3)
             || (4 <? Z.of_nat (List.length (VString eventType :: temporalGranularity :: eventSource :: rest))))
      with false
      by (replace (Z.of_nat (List.length (VString eventType :: temporalGranularity :: eventSource :: rest)))
            with (3 + Z.of_nat (List.length rest)) by (cbn [List.length]; lia); lia).
    unfold _FIXED_HEADER_SIZE. change (65535 - 47) with 65488. now rewrite Hgt.
  - intros Hgt Hlong.
    pose proof (stringByteLength_string_lower eventType) as Hlow.
    unfold Header_new. cbv zeta.
    cbn [argument nth is_type typeof type_name_eqb negb bind
         stringByteLength option_map].
    replace ((Z.of_nat (List.length (VString eventType :: temporalGranularity :: eventSource :: rest)) <? 3)
             || (4 <? Z.of_nat (List.length (VString eventType :: temporalGranularity :: eventSource :: rest))))
      with false
      by (replace (Z.of_nat (List.length (VString eventType :: temporalGranularity :: eventSource :: rest)))
            with (3 + Z.of_nat (List.length rest)) by (cbn [List.length]; lia); lia).
    unfold _FIXED_HEADER_SIZE. change (65535 - 47) with 65488. rewrite Hgt.
    cbn [orb]. unfold Buffer.new, Buffer.kMaxLength.
    destruct ((47 + stringByteLength_string eventType <? 0)
              || (2 ^ 53 - 1 <? 47 + stringByteLength_string eventType)) eqn:Esize;
      [reflexivity|].
    cbn [bind].
    assert (Hlen : Buffer.length (Buffer.set (repeat 0 (Z.to_nat (47 + stringByteLength_string eventType))) 0 PROTOCOL_VERSION)
                   = 47 + stringByteLength_string eventType).
    { rewrite set_0, length_nat, blit_length, repeat_length. lia. }
    rewrite Hlen, writeUInt16BE_of_Z by lia.
    now replace (65535 <? 47 + stringByteLength_string eventType) with true by lia.
  - intros Hgt Hmax.
    destruct (Header_new_after_eventType eventType temporalGranularity eventSource
                rest Hrest Hgt Hmax) as (b2 & _ & ->).
    split.
    + intros ->. reflexivity.
    + intros ->. cbn [negb].
      destruct eventSource as [| | | |s]; try reflexivity.
      intros Hs.
      cbn [is_type typeof type_name_eqb negb bind stringByteLength differs].
      destruct (Z.eqb_spec (stringByteLength_string s) 12); [contradiction|].
      reflexivity.
Qed.

(** X9.  [new Header] with fewer than three or more than four arguments
    throws the argument-count error; with three or four arguments, a first
    argument that is [undefined] or [null] throws a [TypeError], and one that
    is a boolean or a number throws the event-type error when it is above
    65488 and a [RangeError] otherwise: no header is built from an event
    type that is not a string. *)
Theorem Header_rejects_what_is_not_a_string (arguments : list value) :
  ((List.length arguments < 3 \/ 4 < List.length arguments)%nat ->
   Header granularity true arguments = Throw (Error ArgumentCount)) /\
  ((3 <= List.length arguments <= 4)%nat ->
   match argument arguments 0 with
   | VUndefined | VNull => Header granularity true arguments = Throw TypeError
   | VBoolean _ | VNumber _ =>
       Header granularity true arguments =
         if gt (ToNumber (argument arguments 0)) (of_Z 65488)
         then Throw (Error EventTypeArgument) else Throw RangeError
   | VString _ => True
   end).
Proof.
  unfold Header. cbn [negb]. split.
  - intros Hcount. unfold Header_new. cbv zeta.
    now replace ((Z.of_nat (List.length arguments) <? 3)
                 || (4 <? Z.of_nat (List.length arguments))) with true by lia.
  - intros Hcount. unfold Header_new. cbv zeta.
    replace ((Z.of_nat (List.length arguments) <? 3)
             || (4 <? Z.of_nat (List.length arguments))) with false by lia.
    unfold _FIXED_HEADER_SIZE. change (65535 - 47) with 65488.
    destruct (argument arguments 0) as [| |b|x|s];
      cbn [is_type typeof type_name_eqb negb bind length_is_zero orb];
      reflexivity || exact I.
Qed.

End ConstructorOutcome.

Lemma Header_returns_only_on_valid_arguments_witness :
  Header example_granularity true example_arguments = Return example_header /\
  exists eventType eventSource,
    argument example_arguments 0 = VString eventType /\
    argument example_arguments 2 = VString eventSource /\
    validateEnumValue (argument example_arguments 1) (members example_granularity) = true /\
    stringByteLength_string eventSource = 12 /\
    47 + stringByteLength_string eventType <= 65535 /\
    (true = true -> (3 <= List.length example_arguments <= 4)%nat).
Proof.
  split; [vm_compute; reflexivity|].
  apply (Header_returns_only_on_valid_arguments example_granularity true
           example_arguments example_header).
  vm_compute. reflexivity.
Defined.

Lemma Header_checks_in_order_witness :
  (List.length [VBoolean true] <= 1)%nat /\
  Header example_granularity true
    [VString (lit "testEventType"); VNumber (of_Z 9); VUndefined; VBoolean true]
  = Throw (Error GranularityArgument).
Proof.
  split; [cbn; lia|].
  apply (Header_checks_in_order example_granularity (lit "testEventType")
           (VNumber (of_Z 9)) VUndefined [VBoolean true]).
  - cbn. lia.
  - vm_compute. reflexivity.
  - apply Z.leb_le. vm_compute. reflexivity.
  - vm_compute. reflexivity.
Defined.

(** ** The two forms of the call and the fourth argument *)

Section CallForms.

Variable granularity : granularity_module.

(** X10.  With three or four arguments a plain call of [Header] gives what
    [new Header] gives, the same header or the same exception. *)
Theorem plain_call_agrees_on_three_or_four_arguments (arguments : list value) :
  (List.length arguments = 3 \/ List.length arguments = 4)%nat ->
  Header granularity false arguments = Header granularity true arguments.
Proof.
  intros [H|H].
  - destruct arguments as [|a [|b [|c [|d rest]]]]; try discriminate H.
    unfold Header. cbn [negb argument nth].
    unfold Header_new. cbv zeta. cbn [argument nth List.length].
    reflexivity.
  - destruct arguments as [|a [|b [|c [|d [|e rest]]]]]; try discriminate H.
    reflexivity.
Qed.

(** X11.  Passing a boolean fourth argument is the same as building the
    header from the first three arguments and calling [setComposed] with
    it; a fourth argument that is not a boolean is ignored. *)
Theorem fourth_argument_is_setComposed (a b c v : value) :
  Header granularity true [a; b; c; v]
  = h <- Header granularity true [a; b; c] ;; fourth_argument v h.
Proof.
  unfold Header. cbn [negb]. unfold Header_new. cbv zeta.
  cbn [argument nth List.length].
  change (Z.of_nat 4) with 4. change (Z.of_nat 3) with 3.
  cbn [Z.ltb Z.eqb Z.compare Pos.compare Pos.compare_cont Pos.eqb orb].
  repeat match goal with
         | |- (if ?t then _ else _) = _ => destruct t; cbn [bind]; try reflexivity
         | |- bind ?m _ = _ => destruct m; cbn [bind]; try reflexivity
         end.
  all: destruct v; reflexivity.
Qed.

End CallForms.

Lemma plain_call_agrees_on_three_or_four_arguments_witness :
  (List.length example_arguments = 3 \/ List.length example_arguments = 4)%nat /\
  Header example_granularity false example_arguments
  = Header example_granularity true example_arguments.
Proof.
  split; [left; reflexivity|].
  apply (plain_call_agrees_on_three_or_four_arguments example_granularity
           example_arguments).
  left. reflexivity.
Defined.

(** ** The bytes of a new header *)

Section Layout.

Variable granularity : granularity_module.








End Layout.



(** ** The fields are independent *)

Section Independence.

Variable granularity : granularity_module.

(** A call that returns has written at the start of its field; except for
    the event id, no more bytes than the field has. *)
Lemma invoke_writes_its_field (h h' : HeaderObject) (c : call) :
  invoke h c = Return h' ->
  FIXED_HEADER_SIZE h' = FIXED_HEADER_SIZE h /\
  exists bytes,
    buffer h' = Buffer.blit (buffer h) (start (target c)) bytes /\
    (target c <> EventIdField -> (List.length bytes <= width (target c))%nat).
Proof.
  destruct c as [v|v|v|v|v]; cbn [invoke target start width].
  - unfold setPayloadLength. destruct v as [| | |n|]; try discriminate.
    destruct (gt n (of_Z 4294967295)); [discriminate|].
    unfold Buffer.writeUInt32BE, Buffer.writeUIntBE.
    destruct (_ || _); [discriminate|].
    destruct (Buffer.in_bounds (buffer h) 3 (Z.of_nat 4)); [|discriminate].
    cbn [bind]. intros H. apply Return_inj in H. subst h'.
    split; [reflexivity|]. cbn [buffer]. eexists. split; [reflexivity|].
    intros _. now rewrite be_bytes_length.
  - unfold setOccurrenceTime. destruct v as [| | |t|]; try discriminate.
    destruct (gt t MAX_TIME); [discriminate|].
    unfold Buffer.writeDoubleBE.
    destruct (Buffer.in_bounds (buffer h) 7 8); [|discriminate].
    cbn [bind]. intros H. apply Return_inj in H. subst h'.
    split; [reflexivity|]. cbn [buffer]. eexists. split; [reflexivity|].
    intros _. now rewrite be_bytes_length.
  - unfold setDetectionTime. destruct v as [| | |t|]; try discriminate.
    destruct (gt t MAX_TIME); [discriminate|].
    unfold Buffer.writeDoubleBE.
    destruct (Buffer.in_bounds (buffer h) 15 8); [|discriminate].
    cbn [bind]. intros H. apply Return_inj in H. subst h'.
    split; [reflexivity|]. cbn [buffer]. eexists. split; [reflexivity|].
    intros _. now rewrite be_bytes_length.
  - unfold setEventId. destruct v as [| | | |s]; try discriminate.
    cbn [is_type typeof type_name_eqb negb bind stringByteLength differs].
    destruct (negb (stringByteLength_string s =? 12)); [discriminate|].
    destruct (Buffer.write (buffer h) (VString s) 23) as [b|] eqn:Hw; [|discriminate].
    cbn [bind]. intros H. apply Return_inj in H. subst h'.
    split; [reflexivity|]. cbn [buffer].
    apply write_Return in Hw as (s' & bytes & _ & _ & -> & _).
    exists bytes. split; [reflexivity|]. intros H. now elim H.
  - unfold setComposed. destruct v as [| |flag| |]; try discriminate.
    intros H. apply Return_inj in H. subst h'.
    split; [reflexivity|]. cbn [buffer].
    destruct (flip_composed_blit (buffer h) flag) as (bytes & -> & Hbytes).
    exists bytes. split; [reflexivity|]. intros _. exact Hbytes.
Qed.

(** What the getter of a field returns depends on the length of the buffer
    and on the bytes of the field only. *)
Lemma read_depends_on_its_field (f : field) (h h' : HeaderObject) :
  List.length (buffer h') = List.length (buffer h) ->
  firstn (width f) (skipn (start f) (buffer h'))
  = firstn (width f) (skipn (start f) (buffer h)) ->
  read f h' = read f h.
Proof.
  intros Hlen Hfield.
  destruct f; cbn [read start width] in *.
  - unfold getPayloadLength, Buffer.readUInt32BE, Buffer.readUIntBE, Buffer.in_bounds.
    rewrite !length_nat, Hlen.
    change (3 + Z.of_nat 4) with (Z.of_nat 3 + Z.of_nat 4).
    change 3 with (Z.of_nat 3) at 2 4.
    now rewrite !slice_nat, Hfield.
  - unfold getOccurrenceTime, Buffer.readDoubleBE, Buffer.in_bounds.
    rewrite !length_nat, Hlen.
    change (Buffer.slice (buffer h') 7 (7 + 8))
      with (Buffer.slice (buffer h') (Z.of_nat 7) (Z.of_nat 7 + Z.of_nat 8)).
    change (Buffer.slice (buffer h) 7 (7 + 8))
      with (Buffer.slice (buffer h) (Z.of_nat 7) (Z.of_nat 7 + Z.of_nat 8)).
    now rewrite !slice_nat, Hfield.
  - unfold getDetectionTime, Buffer.readDoubleBE, Buffer.in_bounds.
    rewrite !length_nat, Hlen.
    change (Buffer.slice (buffer h') 15 (15 + 8))
      with (Buffer.slice (buffer h') (Z.of_nat 15) (Z.of_nat 15 + Z.of_nat 8)).
    change (Buffer.slice (buffer h) 15 (15 + 8))
      with (Buffer.slice (buffer h) (Z.of_nat 15) (Z.of_nat 15 + Z.of_nat 8)).
    now rewrite !slice_nat, Hfield.
  - unfold getEventId, Buffer.toString, Buffer.slice.
    rewrite !length_nat, Hlen.
    change (Z.to_nat (Z.max 0 23)) with 23%nat. change (Z.max 0 23) with 23.
    f_equal. f_equal.
    assert (Hk : (Z.to_nat (Z.min 35 (Z.of_nat (List.length (buffer h))) - 23) <= 12)%nat)
      by lia.
    rewrite <- (Nat.min_l _ _ Hk), <- !firstn_firstn.
    now rewrite Hfield.
  - unfold isComposed, Buffer.get_int, Buffer.get.
    cbn [Z.ltb Z.compare Z.to_nat].
    destruct (buffer h) as [|x b], (buffer h') as [|x' b']; cbn in *;
      congruence.
Qed.

(** X14.  A call of a mutator changes no field but its own: after any
    sequence of calls none of which sets the field [f] -- whether they
    return or throw -- the getter of [f] returns what it returned before. *)
Theorem fields_are_independent (f : field) (h : HeaderObject) (calls : list call) :
  (forall c, In c calls -> target c <> f) ->
  read f (run h calls) = read f h.
Proof.
  revert h. induction calls as [|c calls IH]; intros h Hcalls; [reflexivity|].
  cbn [run fold_left]. change (fold_left after calls (after h c)) with (run (after h c) calls).
  rewrite IH by (intros c' Hc'; apply Hcalls; now right).
  assert (Hc : target c <> f) by (apply Hcalls; now left).
  unfold after. destruct (invoke h c) as [h'|] eqn:Hinvoke; [|reflexivity].
  apply invoke_writes_its_field in Hinvoke as (_ & bytes & Hb & Hbytes).
  apply read_depends_on_its_field.
  - rewrite Hb. apply blit_length.
  - rewrite Hb. apply blit_read_other.
    destruct (target c) eqn:Ht, f; try (now elim Hc);
      cbn [start width] in *;
      try (specialize (Hbytes ltac:(discriminate))); lia.
Qed.

End Independence.

Lemma fields_are_independent_witness :
  (forall c, In c example_other_calls -> target c <> DetectionTimeField) /\
  read DetectionTimeField (run example_header example_other_calls)
  = read DetectionTimeField example_header.
Proof.
  assert (H : forall c, In c example_other_calls -> target c <> DetectionTimeField).
  { intros c Hc. cbn in Hc.
    repeat (destruct Hc as [<-|Hc]; [discriminate|]).
    destruct Hc. }
  split; [exact H|].
  exact (fields_are_independent DetectionTimeField example_header
           example_other_calls H).
Defined.

(** ** What the mutators cannot change *)

Section Immutable.

Variable granularity : granularity_module.

Lemma lor_1_multiple_of_16 (k : Z) : Z.lor 1 (16 * k) = 16 * k + 1.
Proof.
  assert (H : Z.land 1 (16 * k) = 0).
  { rewrite Z.land_comm. change 1 with (Z.ones 1). rewrite Z.land_ones by lia.
    change (2 ^ 1) with 2. Z.div_mod_to_equations. lia. }
  rewrite <- Z.lxor_lor by assumption.
  rewrite <- Z.add_nocarry_lxor by assumption. lia.
Qed.

Lemma granularity_bits_multiple_of_16 (tg : value) :
  exists k, granularity_bits tg = 16 * k.
Proof.
  unfold granularity_bits, int32. rewrite Z.shiftl_mul_pow2 by lia.
  change (2 ^ 4) with 16. change (2 ^ 32) with 4294967296.
  destruct (_ <? _).
  - exists ((ToInt32 (ToNumber tg) * 16 mod 4294967296) / 16).
    Z.div_mod_to_equations. lia.
  - exists ((ToInt32 (ToNumber tg) * 16 mod 4294967296) / 16 - 268435456).
    Z.div_mod_to_equations. lia.
Qed.

(** The first byte that the constructor writes, whatever the granularity
    argument is: version 1, bit 3 clear, a code of four bits. *)
Lemma first_byte_general (tg : value) :
  let x := Z.lor 1 (granularity_bits tg) mod 256 in
  0 <= x < 256 /\ Z.land x 7 = 1 /\ 0 <= Z.shiftr x 4 <= 15 /\
  (forall k, granularity_bits tg = 16 * k -> Z.shiftr x 4 = k mod 16).
Proof.
  cbv zeta. destruct (granularity_bits_multiple_of_16 tg) as (k & ->).
  rewrite lor_1_multiple_of_16.
  assert (Hx : (16 * k + 1) mod 256 = 16 * (k mod 16) + 1)
    by (Z.div_mod_to_equations; lia).
  rewrite Hx.
  assert (Hj : 0 <= k mod 16 < 16) by (apply Z.mod_pos_bound; lia).
  pose proof (forall_bytes
    (fun j => (15 <? j) ||
       (Z.land (16 * j + 1) 7 =? 1) && (Z.shiftr (16 * j + 1) 4 =? j))
    ltac:(vm_compute; reflexivity) (k mod 16) ltac:(lia)) as H.
  cbv beta in H. destruct (Z.ltb_spec 15 (k mod 16)); [lia|]. cbn [orb] in H.
  apply andb_true_iff in H as [H7 H4]. apply Z.eqb_eq in H7, H4.
  rewrite H7, H4. repeat split; try lia.
  intros k' Hk'. assert (k' = k) by lia. now subst k'.
Qed.

Lemma granularity_bits_of_code (c : Z) :
  0 <= c < 2 ^ 27 -> granularity_bits (VNumber (of_Z c)) = 16 * c.
Proof.
  intros Hc. unfold granularity_bits, ToInt32. cbn [ToNumber].
  rewrite truncate_of_Z by lia.
  assert (Hint : forall z, 0 <= z < 2 ^ 31 -> int32 z = z).
  { intros z Hz. unfold int32. rewrite Z.mod_small by lia.
    destruct (Z.ltb_spec z (2 ^ 31)); [reflexivity|lia]. }
  rewrite (Hint c) by lia. rewrite Z.shiftl_mul_pow2 by lia.
  change (2 ^ 4) with 16. rewrite Hint by lia. lia.
Qed.

(** X15.  The protocol version, the granularity code and the header length
    are fixed by the construction: after any calls of the mutators the
    version is 1, the code is the four-bit code that the constructor stored
    and the header length is unchanged.  The code is not checked against
    the four bits it is stored in: for an integer argument [c] below [2^27]
    the stored code is [c mod 16]. *)
Theorem version_and_granularity_are_fixed
    (new : bool) (arguments : list value) (h : HeaderObject) (calls : list call) :
  Header granularity new arguments = Return h ->
  getProtocolVersion (run h calls) = 1 /\
  getTemporalGranularity (run h calls) = getTemporalGranularity h /\
  0 <= getTemporalGranularity h <= 15 /\
  getHeaderLength (run h calls) = getHeaderLength h /\
  (forall c, argument arguments 1 = VNumber (of_Z c) -> 0 <= c < 2 ^ 27 ->
     getTemporalGranularity (run h calls) = c mod 16).
Proof.
  intros Hnew.
  pose proof (Header_inv granularity new arguments h Hnew) as (et & _ & Hinv).
  assert (H : exists args, Header_new granularity args = Return h /\
                           argument args 1 = argument arguments 1).
  { unfold Header in Hnew. destruct new; cbn [negb] in Hnew; eauto. }
  destruct H as (args & H & Harg).
  apply Header_new_first_byte in H as (b4 & Hb & Hlen & Hbyte).
  rewrite Harg in Hbyte.
  destruct (first_byte_general (argument arguments 1))
    as (Hrange & Hversion & Hcode & Hmod).
  set (code := Z.shiftr (Z.lor 1 (granularity_bits (argument arguments 1)) mod 256) 4) in *.
  assert (H4 : first_byte_inv code {| FIXED_HEADER_SIZE := FIXED_HEADER_SIZE h; buffer := b4 |}).
  { unfold first_byte_inv. cbn [buffer]. rewrite Hbyte. repeat split; assumption || lia. }
  assert (Hh : first_byte_inv code h).
  { destruct h as [sz b]. cbn [buffer FIXED_HEADER_SIZE] in *. subst b.
    unfold composed_argument.
    destruct (argument args 3); try assumption.
    destruct (Z.of_nat (List.length args) =? 4); [|assumption].
    now apply first_byte_inv_flip. }
  pose proof (first_byte_inv_run code calls h Hh) as (_ & _ & Hcode' & Hversion').
  destruct Hh as (_ & _ & Hcode0 & _).
  unfold getProtocolVersion, getTemporalGranularity.
  rewrite Hcode', Hcode0.
  split; [exact Hversion'|]. split; [reflexivity|]. split; [exact Hcode|]. split.
  - rewrite (header_inv_getHeaderLength _ _ (header_inv_run _ calls h Hinv)).
    now rewrite (header_inv_getHeaderLength _ _ Hinv).
  - intros c Hc Hc27. apply Hmod. rewrite Hc. now apply granularity_bits_of_code.
Qed.

(** A call that returns on a header of at least 47 bytes, and whose event
    id if any is well-formed, writes before offset 35. *)
Lemma benign_call_writes_before_35 (h h' : HeaderObject) (c : call) :
  47 <= Buffer.length (buffer h) -> benign c ->
  invoke h c = Return h' ->
  exists offset bytes,
    buffer h' = Buffer.blit (buffer h) offset bytes /\
    (offset + List.length bytes <= 35)%nat.
Proof.
  intros Hlen Hbenign Hinvoke.
  assert (Hcases : (exists v, c = SetEventId v) \/ target c <> EventIdField)
    by (destruct c; cbn [target]; (left; eexists; reflexivity) || (right; discriminate)).
  destruct Hcases as [(v & ->)|Hother].
  - cbn [invoke] in Hinvoke. unfold setEventId in Hinvoke.
    destruct v as [| | | |s]; try discriminate Hinvoke.
    cbn [is_type typeof type_name_eqb negb bind stringByteLength differs] in Hinvoke.
    destruct (Z.eqb_spec (stringByteLength_string s) 12) as [Hs|]; [|discriminate].
    cbn [negb] in Hinvoke. cbn [benign] in Hbenign.
    pose proof (stringByteLength_string_encode s Hbenign) as Hsize.
    destruct (write_well_formed (buffer h) s 23 Hbenign ltac:(lia)) as (Hw & _); [lia|].
    rewrite Hw in Hinvoke. cbn [bind] in Hinvoke.
    apply Return_inj in Hinvoke. subst h'. cbn [buffer].
    exists (Z.to_nat 23), (Utf8.encode s). split; [reflexivity|]. lia.
  - apply invoke_writes_its_field in Hinvoke as (_ & bytes & Hb & Hbytes).
    specialize (Hbytes Hother).
    exists (start (target c)), bytes. split; [assumption|].
    destruct (target c); cbn [start width] in *; lia || now elim Hother.
Qed.

(** X16.  The event source and the event type are fixed by the
    construction: they are what they were after any calls of the mutators
    in which every event id passed to [setEventId] is a well-formed
    string. *)
Theorem eventSource_and_eventType_are_fixed (h : HeaderObject) (calls : list call) :
  reachable granularity h ->
  Forall benign calls ->
  getEventSource (run h calls) = getEventSource h /\
  getEventType (run h calls) = getEventType h.
Proof.
  intros Hreach Hcalls.
  apply reachable_inv in Hreach as (L & Hinv).
  revert h Hinv. induction Hcalls as [|c calls Hc _ IH]; intros h Hinv;
    [split; reflexivity|].
  cbn [run fold_left]. change (fold_left after calls (after h c)) with (run (after h c) calls).
  pose proof (header_inv_after _ h c Hinv) as Hinv'.
  destruct (IH _ Hinv') as (-> & ->).
  unfold getEventType.
  rewrite (header_inv_getHeaderLength _ _ Hinv), (header_inv_getHeaderLength _ _ Hinv').
  cbn [bind].
  destruct Hinv as (Hsize & Hlen & HL & _). destruct Hinv' as (Hsize' & Hlen' & _).
  rewrite Hsize, Hsize'.
  unfold after in *. destruct (invoke h c) as [h'|] eqn:Hinvoke; [|split; reflexivity].
  destruct (benign_call_writes_before_35 h h' c ltac:(lia) Hc Hinvoke)
    as (offset & bytes & Hb & Hend).
  unfold getEventSource, Buffer.toString, Buffer.slice.
  rewrite Hlen, Hlen', Hb.
  change (Z.to_nat (Z.max 0 35)) with 35%nat.
  change (Z.to_nat (Z.max 0 47)) with 47%nat.
  now rewrite !blit_read_other by lia.
Qed.

(** X17.  On a header that the interface can produce no getter of a stored
    field throws: the header length, the payload length, the two times and
    the event type are returned (each read fits in the buffer). *)
Theorem getters_return (h : HeaderObject) :
  reachable granularity h ->
  exists headerLength payloadLength occurrenceTime detectionTime eventType,
    getHeaderLength h = Return headerLength /\
    headerLength = Buffer.length (buffer h) /\
    getPayloadLength h = Return payloadLength /\
    getOccurrenceTime h = Return occurrenceTime /\
    getDetectionTime h = Return detectionTime /\
    getEventType h = Return eventType.
Proof.
  intros Hreach. apply reachable_inv in Hreach as (L & Hinv).
  pose proof (header_inv_getHeaderLength _ _ Hinv) as Hlength.
  destruct Hinv as (_ & Hlen & HL & _).
  unfold getPayloadLength, getOccurrenceTime, getDetectionTime, getEventType,
    Buffer.readUInt32BE, Buffer.readUIntBE, Buffer.readDoubleBE.
  rewrite Hlength.
  rewrite !in_bounds_47 by (cbn; lia).
  cbn [bind]. repeat eexists. now rewrite Hlen.
Qed.

End Immutable.

Lemma version_and_granularity_are_fixed_witness :
  Header example_granularity true example_arguments = Return example_header /\
  getProtocolVersion (run example_header example_calls) = 1 /\
  getTemporalGranularity (run example_header example_calls) = 2 mod 16.
Proof.
  assert (H : Header example_granularity true example_arguments = Return example_header)
    by (vm_compute; reflexivity).
  split; [exact H|].
  destruct (version_and_granularity_are_fixed example_granularity true
              example_arguments example_header example_calls H)
    as (Hversion & _ & _ & _ & Hcode).
  split; [exact Hversion|].
  apply Hcode; [reflexivity|lia].
Defined.

Lemma eventSource_and_eventType_are_fixed_witness :
  reachable example_granularity example_header /\
  Forall benign example_calls /\
  getEventSource (run example_header example_calls) = getEventSource example_header /\
  getEventType (run example_header example_calls) = getEventType example_header.
Proof.
  assert (H : Forall benign example_calls)
    by (repeat constructor; reflexivity).
  split; [exact example_header_reachable|]. split; [exact H|].
  exact (eventSource_and_eventType_are_fixed example_granularity example_header
           example_calls example_header_reachable H).
Defined.

Lemma getters_return_witness :
  reachable example_granularity example_header /\
  exists headerLength payloadLength occurrenceTime detectionTime eventType,
    getHeaderLength example_header = Return headerLength /\
    headerLength = Buffer.length (buffer example_header) /\
    getPayloadLength example_header = Return payloadLength /\
    getOccurrenceTime example_header = Return occurrenceTime /\
    getDetectionTime example_header = Return detectionTime /\
    getEventType example_header = Return eventType.
Proof.
  split; [exact example_header_reachable|].
  exact (getters_return example_granularity example_header example_header_reachable).
Defined.

(** ** [stringByteLength] on any string *)

Section StringByteLengthAny.

Import Utf8.

Lemma snoc_cases (A : Type) (l : list A) :
  l = [] \/ exists p c, l = p ++ [c].
Proof. destruct l using rev_ind; [now left|right; eauto]. Qed.

(** The code points of a concatenation are those of its parts when the
    second part does not start with a trail surrogate. *)
Lemma code_points_app_no_trail (n : nat) :
  forall p r : jsstring,
    (List.length p <= n)%nat ->
    is_trail (hd 0 r) = false ->
    code_points (p ++ r) = code_points p ++ code_points r.
Proof.
  induction n as [|n IH]; intros p r Hn Hr.
  - destruct p; [reflexivity|cbn in Hn; lia].
  - destruct p as [|c p]; [reflexivity|].
    cbn [List.length] in Hn. cbn [app code_points].
    destruct (is_lead c).
    + destruct p as [|d p]; cbn [app].
      * destruct r as [|d r]; [reflexivity|]. cbn [hd] in Hr. now rewrite Hr.
      * cbn [List.length] in Hn.
        destruct (is_trail d).
        -- rewrite (IH p r) by (assumption || lia). reflexivity.
        -- change (d :: p ++ r) with ((d :: p) ++ r).
           rewrite (IH (d :: p) r) by (assumption || cbn [List.length]; lia).
           reflexivity.
    + destruct (is_trail c); rewrite (IH p r) by (assumption || lia); reflexivity.
Qed.

Lemma code_points_cons (c : Z) (r : jsstring) :
  code_points (c :: r) =
    if is_lead c then
      match r with
      | d :: r' =>
          if is_trail d then pair_code_point c d :: code_points r'
          else REPLACEMENT :: code_points r
      | [] => [REPLACEMENT]
      end
    else if is_trail c then REPLACEMENT :: code_points r
    else c :: code_points r.
Proof. reflexivity. Qed.

(** ... and when the first part does not end with a lead surrogate. *)
Lemma code_points_app_no_lead (n : nat) :
  forall p r : jsstring,
    (List.length p <= n)%nat ->
    is_lead (last p 0) = false ->
    code_points (p ++ r) = code_points p ++ code_points r.
Proof.
  induction n as [|n IH]; intros p r Hn Hp.
  - destruct p; [reflexivity|cbn in Hn; lia].
  - destruct p as [|c p]; [reflexivity|].
    cbn [List.length] in Hn.
    destruct p as [|d p].
    + cbn [last] in Hp. cbn [app]. rewrite !(code_points_cons c). rewrite Hp.
      destruct (is_trail c); reflexivity.
    + assert (Hlast : last (c :: d :: p) 0 = last (d :: p) 0) by reflexivity.
      rewrite Hlast in Hp. cbn [List.length] in Hn.
      change ((c :: d :: p) ++ r) with (c :: d :: (p ++ r)).
      rewrite !(code_points_cons c). cbv iota.
      change (d :: p ++ r) with ((d :: p) ++ r).
      rewrite (IH (d :: p) r) by (assumption || cbn [List.length]; lia).
      destruct (is_lead c).
      * destruct (is_trail d); [|reflexivity].
        destruct p as [|e p]; [reflexivity|].
        rewrite (IH (e :: p) r); [reflexivity|cbn [List.length] in *; lia|exact Hp].
      * destruct (is_trail c); reflexivity.
Qed.

Lemma encoded_length_app (p r : jsstring) :
  is_trail (hd 0 r) = false \/ is_lead (last p 0) = false ->
  encoded_length (p ++ r) = encoded_length p + encoded_length r.
Proof.
  intros H. unfold encoded_length, encode.
  assert (E : code_points (p ++ r) = code_points p ++ code_points r).
  { destruct H.
    - now apply (code_points_app_no_trail (List.length p)).
    - now apply (code_points_app_no_lead (List.length p)). }
  rewrite E, flat_map_app, length_app. lia.
Qed.

Lemma is_lead_not_trail (c : Z) : is_lead c = true -> is_trail c = false.
Proof. unfold is_lead, is_trail. lia. Qed.

(** What one more code unit adds to the encoding, by the unit. *)
Lemma encoded_length_snoc (p : jsstring) (c : Z) :
  is_trail c = false ->
  encoded_length (p ++ [c])
  = encoded_length p +
    (if is_lead c then 3 else if c <? 0x80 then 1 else if c <? 0x800 then 2
     else if c <? 0x10000 then 3 else 4).
Proof.
  intros Hc. rewrite encoded_length_app by (left; exact Hc).
  f_equal. unfold encoded_length, encode. cbn [code_points]. rewrite Hc.
  destruct (is_lead c) eqn:Hlead; [reflexivity|].
  cbn [flat_map]. rewrite app_nil_r. apply encode_code_point_length.
Qed.

Lemma encoded_length_snoc_trail (p : jsstring) (c : Z) :
  is_trail c = true ->
  encoded_length p + 1 <= encoded_length (p ++ [c]) /\
  (is_lead (last p 0) = false ->
   encoded_length (p ++ [c]) = encoded_length p + 3).
Proof.
  intros Hc.
  assert (Hone : encoded_length [c] = 3).
  { unfold encoded_length, encode. cbn [code_points]. rewrite Hc.
    replace (is_lead c) with false by (unfold is_lead, is_trail in *; lia).
    reflexivity. }
  destruct (is_lead (last p 0)) eqn:Hlast.
  - split; [|discriminate].
    destruct (snoc_cases _ p) as [->|(q & d & ->)]; [discriminate Hlast|].
    rewrite last_last in Hlast.
    rewrite <- app_assoc. cbn [app].
    rewrite (encoded_length_app q [d; c])
      by (left; cbn [hd]; now apply is_lead_not_trail).
    rewrite (encoded_length_snoc q d) by now apply is_lead_not_trail.
    rewrite Hlast.
    assert (Hpair : encoded_length [d; c] = 4).
    { unfold encoded_length. rewrite encode_pair by assumption.
      rewrite encode_code_point_length.
      unfold is_lead in Hlast. unfold is_trail in Hc. unfold pair_code_point.
      destruct (Z.ltb_spec (0x10000 + (d - 0xD800) * 1024 + (c - 0xDC00)) 0x80),
               (Z.ltb_spec (0x10000 + (d - 0xD800) * 1024 + (c - 0xDC00)) 0x800),
               (Z.ltb_spec (0x10000 + (d - 0xD800) * 1024 + (c - 0xDC00)) 0x10000);
        lia. }
    lia.
  - rewrite encoded_length_app by (right; exact Hlast). rewrite Hone.
    split; [lia|reflexivity].
Qed.

Lemma encoded_length_grows (p : jsstring) (c : Z) :
  encoded_length p + 1 <= encoded_length (p ++ [c]).
Proof.
  destruct (is_trail c) eqn:Hc.
  - now apply encoded_length_snoc_trail.
  - rewrite encoded_length_snoc by assumption.
    destruct (is_lead c), (c <? 0x80), (c <? 0x800), (c <? 0x10000); lia.
Qed.

(** The loop, started below a prefix [pre] of the string, adds no more than
    the encoding of the prefix needs beyond one byte a unit. *)
Lemma stringByteLength_loop_le (n : nat) :
  forall (pre suf : jsstring) (fuel : nat) (s : Z),
    (List.length pre <= n)%nat ->
    stringByteLength_loop fuel (pre ++ suf) (Z.of_nat (List.length pre) - 1) s
    <= s + encoded_length pre - Z.of_nat (List.length pre).
Proof.
  induction n as [|n IH]; intros pre suf fuel s Hn.
  - destruct pre; [|cbn in Hn; lia].
    destruct fuel; cbn; lia.
  - destruct (snoc_cases _ pre) as [->|(p & c & ->)].
    + destruct fuel; cbn; lia.
    + rewrite length_app in *. cbn [List.length] in *.
      destruct fuel as [|fuel].
      * cbn [stringByteLength_loop]. pose proof (encoded_length_grows p c).
        assert (0 <= encoded_length p) by (unfold encoded_length; lia).
        assert (Hp : forall q, Z.of_nat (List.length q) <= encoded_length q).
        { clear. intros q. induction q as [|e q IHq] using rev_ind.
          - reflexivity.
          - rewrite length_app. cbn [List.length].
            pose proof (encoded_length_grows q e). lia. }
        specialize (Hp p). lia.
      * cbn [stringByteLength_loop].
        replace (Z.of_nat (List.length p + 1) - 1) with (Z.of_nat (List.length p)) by lia.
        destruct (Z.leb_spec 0 (Z.of_nat (List.length p))); [|lia].
        rewrite <- app_assoc. cbn [app]. rewrite charCodeAt_middle.
        destruct (is_trail c) eqn:Hc.
        -- replace ((0xDC00 <=? c) && (c <=? 0xDFFF)) with true
             by (unfold is_trail in Hc; lia).
           replace ((0x7f <? c) && (c <=? 0x7ff)) with false
             by (unfold is_trail in Hc; lia).
           replace ((0x7ff <? c) && (c <=? 0xffff)) with true
             by (unfold is_trail in Hc; lia).
           destruct (snoc_cases _ p) as [->|(q & d & ->)].
           ++ cbn [List.length app].
              assert (Hstop : forall f str x, stringByteLength_loop f str (-2) x = x)
                by (intros [|f] str x; reflexivity).
              change (Z.of_nat 0 - 1 - 1) with (-2). rewrite Hstop.
              destruct (encoded_length_snoc_trail [] c Hc) as (_ & H3).
              cbn [app] in H3. rewrite H3 by reflexivity.
              change (encoded_length []) with 0. lia.
           ++ rewrite length_app in *. cbn [List.length] in *.
              replace (Z.of_nat (List.length q + 1) - 1 - 1)
                with (Z.of_nat (List.length q) - 1) by lia.
              rewrite <- app_assoc. cbn [app].
              etransitivity; [apply (IH q (d :: c :: suf)); lia|].
              pose proof (encoded_length_grows q d) as Hd.
              destruct (encoded_length_snoc_trail (q ++ [d]) c Hc) as (_ & H3).
              rewrite last_last in H3.
              destruct (is_lead d) eqn:Hlead.
              ** rewrite <- app_assoc. cbn [app].
                 rewrite (encoded_length_app q [d; c])
                   by (left; cbn [hd]; now apply is_lead_not_trail).
                 assert (Hpair : encoded_length [d; c] = 4).
                 { unfold encoded_length. rewrite encode_pair by assumption.
                   rewrite encode_code_point_length.
                   unfold is_lead in Hlead. unfold is_trail in Hc.
                   unfold pair_code_point.
                   destruct (Z.ltb_spec (0x10000 + (d - 0xD800) * 1024 + (c - 0xDC00)) 0x80),
                            (Z.ltb_spec (0x10000 + (d - 0xD800) * 1024 + (c - 0xDC00)) 0x800),
                            (Z.ltb_spec (0x10000 + (d - 0xD800) * 1024 + (c - 0xDC00)) 0x10000);
                     lia. }
                 lia.
              ** rewrite H3 by reflexivity. lia.
        -- replace ((0xDC00 <=? c) && (c <=? 0xDFFF)) with false
             by (unfold is_trail in Hc; lia).
           change (p ++ c :: suf) with (p ++ [c] ++ suf).
           etransitivity; [apply (IH p ([c] ++ suf)); lia|].
           rewrite encoded_length_snoc by assumption.
           unfold is_lead. unfold is_trail in Hc.
           destruct (Z.leb_spec 0xD800 c), (Z.leb_spec c 0xDBFF); cbn [andb];
             destruct (Z.ltb_spec c 0x80), (Z.ltb_spec c 0x800), (Z.ltb_spec c 0x10000);
             try lia;
             destruct (Z.ltb_spec 0x7f c), (Z.leb_spec c 0x7ff),
                      (Z.ltb_spec 0x7ff c), (Z.leb_spec c 0xffff); cbn [andb]; lia.
Qed.

(** X18.  [stringByteLength] never counts more bytes than the UTF-8
    encoding of the string has, well-formed or not: a buffer allocated with
    it is never larger than what [Buffer.write] needs for the string. *)
Theorem stringByteLength_at_most_utf8_length (str : jsstring) :
  stringByteLength_string str <= Z.of_nat (List.length (Utf8.encode str)).
Proof.
  unfold stringByteLength_string.
  pose proof (stringByteLength_loop_le (List.length str) str [] (List.length str)
                (Z.of_nat (List.length str)) ltac:(lia)) as H.
  rewrite app_nil_r in H. unfold encoded_length in H. lia.
Qed.

End StringByteLengthAny.
